(** * atc-sensor-mqtt-relay: a shallow embedding of [relay.go]

    The relay loads a registry of known sensors from an ini file, scans for
    BLE advertisements, polls every matched device for its temperature and
    humidity characteristics and publishes one JSON payload per MQTT topic.

    The embedding follows [relay.go] function by function.  Everything the
    program obtains from outside (the settings file, the BLE stack, the clock,
    the MQTT client, Go's map iteration order) is read from a [World] of
    oracles; every external call the program makes is recorded in a trace of
    [event]s, and [log.Fatalf] and run-time panics are explicit outcomes. *)

From Stdlib Require Import ZArith Lia List Bool Ascii String Permutation.
From Stdlib Require Strings.Byte.
From Stdlib Require Import Floats.SpecFloat.
From stdpp Require Import base strings list gmap fin_maps.

Open Scope Z_scope.
Open Scope string_scope.
Open Scope list_scope.

(** ** Strings, as Go sees them

    A Go [string] is a byte sequence; Rocq's [string] is a list of 8-bit
    [ascii] characters, so the two coincide.  Every character class the
    program uses is ASCII. *)

Module GoStrings.

Definition inRange (lo hi c : ascii) : bool :=
  ((N_of_ascii lo <=? N_of_ascii c) && (N_of_ascii c <=? N_of_ascii hi))%N.

Definition isUpper (c : ascii) : bool := inRange "A" "Z" c.
Definition isDigit (c : ascii) : bool := inRange "0" "9" c.

(** [[0-9A-Fa-f]] *)
Definition isHex (c : ascii) : bool :=
  isDigit c || inRange "A" "F" c || inRange "a" "f" c.

(** [[0-9A-Z]] *)
Definition isDigitOrUpper (c : ascii) : bool := isDigit c || isUpper c.

(** [strings.ToLower] on one byte: ['A'..'Z'] move down by 32, every other
    byte is kept.  On ASCII strings ([isAscii] below) this is
    [strings.ToLower].  On bytes above 127 Go lower-cases whole runes and
    rewrites invalid UTF-8, which the byte-wise function does not follow; no
    rune lower-cases to an ASCII capital, to a hexadecimal digit or to a
    colon.  Statements that depend on the value of [ToLower] on a string say
    that the string is ASCII. *)
Definition lowerByte (c : ascii) : ascii :=
  if isUpper c then ascii_of_N (N_of_ascii c + 32) else c.

Fixpoint ToLower (s : string) : string :=
  match s with
  | EmptyString => EmptyString
  | String c r => String (lowerByte c) (ToLower r)
  end.

(** Every byte of the string is below 128. *)
Fixpoint isAscii (s : string) : bool :=
  match s with
  | EmptyString => true
  | String c r => (N_of_ascii c <? 128)%N && isAscii r
  end.

(** [regexp.MatchString] is not anchored: the pattern may match at any
    offset.  [matchAnywhere p] tries the prefix matcher [p] at every offset. *)
Fixpoint matchAnywhere (p : string -> bool) (s : string) : bool :=
  p s ||
  match s with
  | EmptyString => false
  | String _ r => matchAnywhere p r
  end.

(** [atcDeviceRegex = `ATC_[0-9A-Z]+`], tried at the head of [s].  One
    character of the class is enough for [+]. *)
Definition atcPrefix (s : string) : bool :=
  match s with
  | String "A" (String "T" (String "C" (String "_" (String c _)))) =>
      isDigitOrUpper c
  | _ => false
  end.

(** [[0-9A-Fa-f]{2}] at the head of [s]; the rest of [s] on success. *)
Definition hexPair (s : string) : option string :=
  match s with
  | String a (String b r) => if isHex a && isHex b then Some r else None
  | _ => None
  end.

(** [([0-9A-Fa-f]{2}:){n}] at the head of [s]; the rest of [s] on success. *)
Fixpoint hexColonGroups (n : nat) (s : string) : option string :=
  match n with
  | O => Some s
  | S n' =>
      match hexPair s with
      | Some (String ":" r) => hexColonGroups n' r
      | _ => None
      end
  end.

(** [macAddressRegex = `([0-9A-Fa-f]{2}:){5}[0-9A-Fa-f]{2}`], tried at the
    head of [s]. *)
Definition macPrefix (s : string) : bool :=
  match hexColonGroups 5 s with
  | Some r => match hexPair r with Some _ => true | None => false end
  | None => false
  end.

Definition atcDeviceRegex_MatchString : string -> bool := matchAnywhere atcPrefix.
Definition macAddressRegex_MatchString : string -> bool := matchAnywhere macPrefix.

(** Does the string hold an ASCII capital? *)
Fixpoint hasUpper (s : string) : bool :=
  match s with
  | EmptyString => false
  | String c r => isUpper c || hasUpper r
  end.

End GoStrings.
Import GoStrings.

(** ** Constants of [relay.go] *)

Definition environmentUUID : string := "181a".
Definition temperatureUUID : string := "2a1f".
Definition humidityUUID : string := "2a6f".
Definition batteryServiceUUID : string := "180f".
Definition batteryLevelUUID : string := "2a19".

(** [ble.CharRead] *)
Definition CharRead : Z := 2.

(** ** Errors

    Go [error] values, as far as the program tells them apart: the two
    context sentinels, any other error, and a [pkg/errors] wrapper holding a
    cause. *)

Inductive error : Type :=
| DeadlineExceeded                          (* context.DeadlineExceeded *)
| Canceled                                  (* context.Canceled *)
| OtherError (msg : string)
| Wrapped (msg : string) (cause : error).   (* errors.Wrap(cause, msg) *)

(** [errors.Cause]: unwrap while the error has a cause. *)
Fixpoint Cause (e : error) : error :=
  match e with
  | Wrapped _ c => Cause c
  | _ => e
  end.

(** ** Data model *)

(** [type sensorInfo struct] *)
Record sensorInfo : Type := { sensorName : string; mqttTopic : string }.

(** The zero value Go returns for a missing map key. *)
Definition zeroSensorInfo : sensorInfo := {| sensorName := ""; mqttTopic := "" |}.

(** [ble.Advertisement], as far as the program reads it:
    [a.Addr().String()] and [a.LocalName()]. *)
Record Advertisement : Type := { Addr : string; LocalName : string }.

(** One section of the loaded file, as the ini library presents it:
    [section.Name()] and the answers of [section.GetKey], [None] standing for
    its error.  How the library finds a key (the last value of a repeated
    key, the parent of a dotted section name) is the library's business and
    is part of the answer. *)
Record iniSection : Type := { Name : string; GetKey : string -> option string }.

(** The answers of a section without a parent whose keys are all
    different, from its key-value lines. *)
Fixpoint lookupKey (keys : list (string * string)) (k : string) : option string :=
  match keys with
  | [] => None
  | (k', v) :: r => if String.eqb k' k then Some v else lookupKey r k
  end.

(** [ble.Characteristic], [ble.Service], [ble.Profile]: the fields read by
    [readCharacteristics].  A UUID is kept as the string [UUID.String()]
    prints. *)
Record Characteristic : Type :=
  { cUUID : string; Property : Z; ValueHandle : Z }.
Record Service : Type :=
  { sUUID : string; Characteristics : list Characteristic }.
Record Profile : Type := { Services : list Service }.

(** [ble.Client]: a session, named by the address of its peer. *)
Record Client : Type := { clnAddr : string }.

(** The dynamically typed values stored in a payload
    ([map[string]interface{}]). *)
Inductive value : Type :=
| VFloat32 (f : spec_float)   (* float32 *)
| VUint16 (n : Z)             (* uint16 *)
| VInt64 (n : Z)              (* int64 *)
| VString (s : string).

(** The command-line flags. *)
Record Flags : Type :=
  { device : string;
    scanDuration : Z;
    deviceSettingsFile : string;
    mqttHost : string;
    mqttPort : Z;
    mqttClientId : string }.

(** The flags' declared defaults ([5*time.Second] in nanoseconds). *)
Definition defaultFlags : Flags :=
  {| device := "default";
     scanDuration := 5000000000;
     deviceSettingsFile := "devices.ini";
     mqttHost := "localhost";
     mqttPort := 1883;
     mqttClientId := "atc-sensor-relay" |}.

(** ** Outcomes, events and the world *)

(** What the process prints or logs on the paths that decide control flow. *)
Inductive logmsg : Type :=
| LogNoKnownSensors                        (* "no known sensors, exiting..." *)
| LogScanDone                              (* "done" *)
| LogScanCanceled                          (* "canceled" *)
| LogNoDevicesFound                        (* "No devices found, exiting..." *)
| LogReadFailed (e : error)                (* "Failed to read characteristic: %s" *)
| LogPollError (dev : string) (e : error)  (* "Error polling device %s: %s" *)
| LogAllFinished.                          (* "All connections have finished." *)

(** The messages of the [log.Fatalf] calls. *)
Inductive fatalmsg : Type :=
| CantLoadSettings (e : error)   (* "can't load device settings file: %s" *)
| CantGetSensorName              (* "can't get sensor name: %s" *)
| CantGetTopic                   (* "can't get MQTT topic: %s" *)
| CantNewDevice (e : error)      (* "can't new device : %s" *)
| FailedToConnect (dev : string) (e : error)  (* "failed to connect to %s: %s" *)
| CantDiscoverProfile (e : error)             (* "can't discover profile: %s" *)
| ScanFailed (e : error).                     (* chkErr: log.Fatalf(err.Error()) *)

(** The values a panic can carry. *)
Inductive panicval : Type :=
| IndexOutOfRange (index len : Z)   (* "index out of range [i] with length n" *)
| PanicError (e : error).           (* panic(token.Error()) *)

(** How a piece of the program ends: it returns a value, the process exits
    through [log.Fatalf] (which calls [os.Exit(1)]), or a panic unwinds the
    (single) goroutine stack and crashes the process. *)
Inductive outcome (A : Type) : Type :=
| Ret (a : A)
| Fatal (m : fatalmsg)
| Panic (p : panicval).
Arguments Ret {A} a.
Arguments Fatal {A} m.
Arguments Panic {A} p.

(** Calls into the outside world, in program order. *)
Inductive event : Type :=
| EvLog (m : logmsg)
| EvIniLoad (path : string)                   (* ini.Load *)
| EvNewDevice (impl : string)                 (* dev.NewDevice *)
| EvScan (duration : Z)                       (* ble.Scan *)
| EvConnect (nameOrAddress : string)          (* ble.Connect *)
| EvDiscoverProfile (cln : Client)            (* cln.DiscoverProfile *)
| EvReadCharacteristic (cln : Client) (c : Characteristic)
| EvNow                                       (* time.Now *)
| EvCancelConnection (cln : Client)           (* cln.CancelConnection *)
| EvDone (cln : Client)                       (* <-done: the disconnection was observed *)
| EvMqttConnect (host : string) (port : Z) (clientId : string)
| EvPublish (topic : string) (body : gmap string value)
| EvMqttDisconnect (quiesce : Z).

(** The outside world.  Every answer may depend on the history so far. *)
Record World : Type :=
  { (* ini.Load: the sections of the file as iniFile.Sections() lists them
       (in file order, no two of the same name), or an error *)
    w_iniLoad : string -> list iniSection + error;
    (* the flags after flag.Parse *)
    w_flags : Flags;
    (* dev.NewDevice *)
    w_newDevice : string -> option error;
    (* ble.Scan: the advertisements handed to the handler, in order, and the
       error Scan returns *)
    w_scan : list Advertisement * option error;
    (* ble.Connect *)
    w_connect : list event -> string -> Client + error;
    (* cln.DiscoverProfile *)
    w_discover : list event -> Client -> Profile + error;
    (* cln.ReadCharacteristic *)
    w_read : list event -> Client -> Characteristic -> list Byte.byte + error;
    (* time.Now().UnixMilli() *)
    w_now : list event -> Z;
    (* client.Connect(): the token's error *)
    w_mqttConnect : list event -> option error;
    (* the order in which [range] visits foundDevices and payloads *)
    w_rangeFound : gmap string sensorInfo -> list (string * sensorInfo);
    w_rangePayloads :
      gmap string (gmap string value) -> list (string * gmap string value) }.

(** Go leaves the order of [range] over a map open, but visits every entry
    once. *)
Definition rangeOk (w : World) : Prop :=
  (forall m, w_rangeFound w m ≡ₚ map_to_list m) /\
  (forall m, w_rangePayloads w m ≡ₚ map_to_list m).

(** ** The program monad: a trace writer with early exit *)

Definition M (A : Type) : Type := list event -> list event * outcome A.

Definition ret {A} (a : A) : M A := fun h => (h, Ret a).

Definition bind {A B} (m : M A) (k : A -> M B) : M B :=
  fun h =>
    match m h with
    | (h', Ret a) => k a h'
    | (h', Fatal f) => (h', Fatal f)
    | (h', Panic p) => (h', Panic p)
    end.

Notation "'let!' x ':=' m 'in' k" := (bind m (fun x => k))
  (at level 10, x name, m at level 100, k at level 200).
Notation "m ';;;' k" := (bind m (fun _ => k))
  (at level 100, k at level 200, right associativity).

Definition emit (e : event) : M unit := fun h => (h ++ [e], Ret tt).

(** An external call: record it, then read the world's answer. *)
Definition call {A} (e : event) (answer : list event -> A) : M A :=
  fun h => let h' := h ++ [e] in (h', Ret (answer h')).

(** [log.Fatalf] *)
Definition log_Fatalf {A} (m : fatalmsg) : M A := fun h => (h, Fatal m).

(** [panic] *)
Definition panic {A} (p : panicval) : M A := fun h => (h, Panic p).

Definition fmt_Printf (m : logmsg) : M unit := emit (EvLog m).

(** A [for ... range] loop over a list, threading the loop's variables. *)
Fixpoint forRange {A S} (body : S -> A -> M S) (l : list A) (s : S) : M S :=
  match l with
  | [] => ret s
  | x :: r => let! s' := body s x in forRange body r s'
  end.

(** ** [relay.go], function by function *)

(** [isAtcDevice]: does the advertised name match [atcDeviceRegex]? *)
Definition isAtcDevice (a : Advertisement) : bool :=
  atcDeviceRegex_MatchString (LocalName a).

(** The body of the loop over [iniFile.Sections()] in [loadKnownSensors]. *)
Definition loadSection (knownSensors : gmap string sensorInfo) (section : iniSection)
  : M (gmap string sensorInfo) :=
  let addressOrName := Name section in
  if negb (macAddressRegex_MatchString (ToLower addressOrName))
     && negb (atcDeviceRegex_MatchString addressOrName)
  then ret knownSensors                                   (* continue *)
  else
    match GetKey section "sensorname" with
    | None => log_Fatalf CantGetSensorName
    | Some sensorName =>
        match GetKey section "topic" with
        | None => log_Fatalf CantGetTopic
        | Some mqttTopic =>
            ret (<[ToLower addressOrName :=
                     {| sensorName := ToLower sensorName; mqttTopic := mqttTopic |}]>
                   knownSensors)
        end
    end.

(** [loadKnownSensors] *)
Definition loadKnownSensors (w : World) (settingsFilePath : string)
  : M (gmap string sensorInfo) :=
  let! iniFile := call (EvIniLoad settingsFilePath)
                       (fun _ => w_iniLoad w settingsFilePath) in
  match iniFile with
  | inr err => log_Fatalf (CantLoadSettings err)
  | inl sections => forRange loadSection sections ∅
  end.

(** The handler [main] passes to [ble.Scan], as a step on [foundDevices]. *)
Definition scanHandler (knownSensors foundDevices : gmap string sensorInfo)
    (a : Advertisement) : gmap string sensorInfo :=
  let deviceAddress := ToLower (Addr a) in
  let deviceLocalName := LocalName a in
  match knownSensors !! deviceAddress with
  | Some info => <[deviceAddress := info]> foundDevices
  | None =>
      match knownSensors !! deviceLocalName with
      | Some info => <[deviceLocalName := info]> foundDevices
      | None => foundDevices                               (* return *)
      end
  end.

(** [foundDevices] once the scan has handed [advs] to the handler. *)
Definition scanAll (knownSensors : gmap string sensorInfo)
    (advs : list Advertisement) : gmap string sensorInfo :=
  foldl (scanHandler knownSensors) ∅ advs.

(** [chkErr] *)
Definition chkErr (err : option error) : M unit :=
  match err with
  | None => ret tt
  | Some e =>
      match Cause e with
      | DeadlineExceeded => fmt_Printf LogScanDone
      | Canceled => fmt_Printf LogScanCanceled
      | _ => log_Fatalf (ScanFailed e)
      end
  end.

(** Conversions to Go's fixed-width integers. *)
Definition uint16 (z : Z) : Z := z mod 65536.
Definition byteZ (b : Byte.byte) : Z := Z.of_N (Byte.to_N b).

(** [parseLittleEndianValue]: [uint16(b[0]) | uint16(b[1])<<8].  Indexing a
    slice past its length panics; [b[0]] is evaluated first. *)
Definition parseLittleEndianValue (b : list Byte.byte) : outcome Z :=
  match b with
  | [] => Panic (IndexOutOfRange 0 0)
  | [_] => Panic (IndexOutOfRange 1 1)
  | b0 :: b1 :: _ =>
      Ret (Z.lor (uint16 (byteZ b0)) (uint16 (Z.shiftl (uint16 (byteZ b1)) 8)))
  end.

Definition lift {A} (o : outcome A) : M A := fun h => (h, o).

(** IEEE 754 binary32, from the standard library's specification of floats:
    24 bits of precision, exponents below 128, rounding to nearest even. *)
Definition float32_of_Z (n : Z) : spec_float := binary_normalize 24 128 n 0 false.
Definition float32_div : spec_float -> spec_float -> spec_float := SFdiv 24 128.

(** [float32(raw) / 10] *)
Definition decodeTemperature (raw : Z) : spec_float :=
  float32_div (float32_of_Z raw) (float32_of_Z 10).

(** [raw / 100] on [uint16] *)
Definition decodeHumidity (raw : Z) : Z := raw / 100.

(** The body of the loop over [s.Characteristics] in [readCharacteristics]. *)
Definition readOne (w : World) (cln : Client) (payload : gmap string value)
    (c : Characteristic) : M (gmap string value) :=
  if negb (Z.eqb (Z.land (Property c) CharRead) 0) then
    let! r := call (EvReadCharacteristic cln c) (fun h => w_read w h cln c) in
    match r with
    | inr err => fmt_Printf (LogReadFailed err) ;;; ret payload     (* continue *)
    | inl b =>
        if String.eqb (cUUID c) temperatureUUID then
          let! raw := lift (parseLittleEndianValue b) in
          ret (<["temperature" := VFloat32 (decodeTemperature raw)]> payload)
        else if String.eqb (cUUID c) humidityUUID then
          let! raw := lift (parseLittleEndianValue b) in
          ret (<["humidity" := VUint16 (decodeHumidity raw)]> payload)
        else ret payload
    end
  else ret payload.

(** The body of the loop over [p.Services] in [readCharacteristics].
    [time.Now().UnixMilli() / 1000.0] is an [int64] division (truncating). *)
Definition readService (w : World) (cln : Client) (payload : gmap string value)
    (s : Service) : M (gmap string value) :=
  if negb (String.eqb (sUUID s) environmentUUID)
     && negb (String.eqb (sUUID s) batteryServiceUUID)
  then ret payload                                                  (* continue *)
  else
    let! payload := forRange (readOne w cln) (Characteristics s) payload in
    let! now := call EvNow (w_now w) in
    ret (<["timestamp" := VInt64 (Z.quot now 1000)]> payload).

(** [readCharacteristics] *)
Definition readCharacteristics (w : World) (cln : Client) (p : Profile)
  : M (gmap string value) :=
  forRange (readService w cln) (Services p) ∅.

(** [getDeviceData].  The goroutine closes [done] once the client reports
    the disconnection; [<-done] is the event [EvDone].  The second component
    of the result is the returned [error] ([None] for [nil]). *)
Definition getDeviceData (w : World) (nameOrAddress : string) (info : sensorInfo)
  : M (gmap string value * option error) :=
  let! r := call (EvConnect nameOrAddress) (fun h => w_connect w h nameOrAddress) in
  match r with
  | inr err =>
      (* log.Fatalf leaves the process; the [return nil, err] after it is
         never reached *)
      log_Fatalf (FailedToConnect nameOrAddress err)
  | inl cln =>
      let! d := call (EvDiscoverProfile cln) (fun h => w_discover w h cln) in
      match d with
      | inr err => log_Fatalf (CantDiscoverProfile err)
      | inl p =>
          let! payload := readCharacteristics w cln p in
          let payload := <["address" := VString (clnAddr cln)]> payload in
          let payload := <["sensorname" := VString (sensorName info)]> payload in
          emit (EvCancelConnection cln) ;;;
          emit (EvDone cln) ;;;
          ret (payload, None)
      end
  end.

(** The body of [main]'s loop over [foundDevices] (the loop's variable is
    [payloads], topic -> payload). *)
Definition pollOne (w : World) (knownSensors : gmap string sensorInfo)
    (payloads : gmap string (gmap string value)) (d : string * sensorInfo)
  : M (gmap string (gmap string value)) :=
  let deviceName := fst d in
  let info := snd d in
  let! r := getDeviceData w deviceName info in
  match snd r with
  | None =>
      let topic := mqttTopic (default zeroSensorInfo (knownSensors !! deviceName)) in
      ret (<[topic := fst r]> payloads)
  | Some err => fmt_Printf (LogPollError deviceName err) ;;; ret payloads
  end.

Definition pollDevices (w : World) (knownSensors : gmap string sensorInfo)
    (devs : list (string * sensorInfo)) : M (gmap string (gmap string value)) :=
  forRange (pollOne w knownSensors) devs ∅.

(** The body of [main]'s loop over [payloads].  [json.Marshal] cannot fail
    on a payload: its values are strings, integers and finite floats, so the
    [log.Fatalf] behind it is dead and the event keeps the payload itself as
    the message body. *)
Definition publishOne (_ : unit) (m : string * gmap string value) : M unit :=
  emit (EvPublish (fst m) (snd m)).

(** The [if len(payloads) > 0] block of [main]. *)
Definition publishAll (w : World) (flags : Flags)
    (payloads : gmap string (gmap string value)) : M unit :=
  if Z.ltb 0 (Z.of_nat (size payloads)) then
    let! err := call (EvMqttConnect (mqttHost flags) (mqttPort flags) (mqttClientId flags))
                     (w_mqttConnect w) in
    match err with
    | Some e => panic (PanicError e)
    | None =>
        forRange publishOne (w_rangePayloads w payloads) tt ;;;
        emit (EvMqttDisconnect 1000)
    end
  else ret tt.

(** The part of [main] after the scan: the check of [foundDevices], the
    polling loop and the publication. *)
Definition pollAndPublish (w : World) (flags : Flags)
    (knownSensors foundDevices : gmap string sensorInfo) : M unit :=
  if Z.eqb (Z.of_nat (size foundDevices)) 0 then
    fmt_Printf LogNoDevicesFound                                    (* return *)
  else
    let! payloads := pollDevices w knownSensors (w_rangeFound w foundDevices) in
    publishAll w flags payloads ;;;
    fmt_Printf LogAllFinished.

(** [main].  The settings file is loaded before [flag.Parse], hence from the
    flag's default path. *)
Definition main (w : World) : M unit :=
  let! knownSensors := loadKnownSensors w (deviceSettingsFile defaultFlags) in
  if Z.eqb (Z.of_nat (size knownSensors)) 0 then
    fmt_Printf LogNoKnownSensors                                    (* return *)
  else
    let flags := w_flags w in
    let! err := call (EvNewDevice (device flags)) (fun _ => w_newDevice w (device flags)) in
    match err with
    | Some e => log_Fatalf (CantNewDevice e)
    | None =>
        emit (EvScan (scanDuration flags)) ;;;
        let foundDevices := scanAll knownSensors (fst (w_scan w)) in
        chkErr (snd (w_scan w)) ;;;
        pollAndPublish w flags knownSensors foundDevices
    end.

(** ** Reading the results *)

(** The exact value of a finite binary32 number, as a fraction
    (numerator, denominator) with a positive denominator. *)
Definition float32_exact (f : spec_float) : option (Z * Z) :=
  match f with
  | S754_zero _ => Some (0, 1)
  | S754_finite s m e =>
      let n := if s then Z.neg m else Z.pos m in
      Some (if Z.leb 0 e then (n * 2 ^ e, 1) else (n, 2 ^ (- e)))
  | _ => None
  end.

(** The number of tenths nearest to the fraction [q]: what printing [q]
    with one decimal place shows, times ten. *)
Definition tenths (q : Z * Z) : Z := (20 * fst q + snd q) / (2 * snd q).

(** [decodeTemperature raw] is finite, within 2^-12 of [raw / 10], and reads
    [raw / 10] to one decimal place. *)
Definition temperatureOk (raw : Z) : bool :=
  match float32_exact (decodeTemperature raw) with
  | Some q =>
      Z.ltb 0 (snd q)
      && Z.eqb (tenths q) raw
      && Z.leb (4096 * Z.abs (10 * fst q - raw * snd q)) (10 * snd q)
  | None => false
  end.

(** [p] holds of the [n] integers from [z] on. *)
Fixpoint allFrom (p : Z -> bool) (n : nat) (z : Z) : bool :=
  match n with
  | O => true
  | S n' => p z && allFrom p n' (z + 1)
  end.

(** The topics of the [client.Publish] calls of a trace, in order. *)
Definition publishedTopic (e : event) : option string :=
  match e with
  | EvPublish t _ => Some t
  | _ => None
  end.
Definition publishedTopics (tr : list event) : list string := omap publishedTopic tr.

(** The topic [main] files a polled device's payload under. *)
Definition topicOf (knownSensors : gmap string sensorInfo) (d : string * sensorInfo)
  : string :=
  mqttTopic (default zeroSensorInfo (knownSensors !! fst d)).

(** A computation only ever appends to the trace. *)
Definition extends {A} (m : M A) : Prop :=
  forall h, exists mid, fst (m h) = h ++ mid.

(** A computation never ends in [log.Fatalf]. *)
Definition neverFatal {A} (m : M A) : Prop :=
  forall h f, snd (m h) <> Fatal f.

(** Every key of the registry is free of ASCII capitals. *)
Definition keysLower (m : gmap string sensorInfo) : Prop :=
  forall k, is_Some (m !! k) -> hasUpper k = false.

(** No read of a temperature or humidity characteristic on the session
    returns fewer than two bytes. *)
Definition noShortRead (w : World) (cln : Client) : Prop :=
  forall h c b,
    w_read w h cln c = inl b ->
    cUUID c = temperatureUUID \/ cUUID c = humidityUUID ->
    (2 <= length b)%nat.

(** ** Example worlds *)

Definition deskAddr : string := "a4:c1:38:0c:5b:45".
Definition shelfAddr : string := "a4:c1:38:0c:5b:46".

Definition temperatureChar : Characteristic :=
  {| cUUID := temperatureUUID; Property := 18; ValueHandle := 27 |}.
Definition humidityChar : Characteristic :=
  {| cUUID := humidityUUID; Property := 18; ValueHandle := 30 |}.

(** The environmental sensing service of the thermometer firmware. *)
Definition sensorProfile : Profile :=
  {| Services :=
       [ {| sUUID := "1800"; Characteristics := [] |};
         {| sUUID := environmentUUID;
            Characteristics := [temperatureChar; humidityChar] |} ] |}.

(** A world with the given settings file, advertisements and answers to
    [ble.Connect] and [ReadCharacteristic]; the scan runs into its deadline,
    every profile is [sensorProfile], the broker accepts the connection, and
    [range] visits maps in key order. *)
Definition exampleWorld (sections : list iniSection) (advs : list Advertisement)
    (connect : string -> Client + error)
    (read : Client -> Characteristic -> list Byte.byte + error) : World :=
  {| w_iniLoad := fun _ => inl sections;
     w_flags := defaultFlags;
     w_newDevice := fun _ => None;
     w_scan := (advs, Some (Wrapped "scan" DeadlineExceeded));
     w_connect := fun _ => connect;
     w_discover := fun _ _ => inl sensorProfile;
     w_read := fun _ => read;
     w_now := fun _ => 1700000000123;
     w_mqttConnect := fun _ => None;
     w_rangeFound := map_to_list;
     w_rangePayloads := map_to_list |}.

Definition deskSection (topic : string) : iniSection :=
  {| Name := "A4:C1:38:0C:5B:45";
     GetKey := lookupKey [("sensorname", "Desk"); ("topic", topic)] |}.
Definition shelfSection (topic : string) : iniSection :=
  {| Name := "A4:C1:38:0C:5B:46";
     GetKey := lookupKey [("sensorname", "Shelf"); ("topic", topic)] |}.

(** The advertisements of the two sensors: the address as the BLE stack
    prints it, in lower case, and the firmware's name. *)
Definition deskAdv : Advertisement :=
  {| Addr := "a4:c1:38:0c:5b:45"; LocalName := "ATC_0C5B45" |}.
Definition shelfAdv : Advertisement :=
  {| Addr := "a4:c1:38:0c:5b:46"; LocalName := "ATC_0C5B46" |}.

Definition connectOk (nameOrAddress : string) : Client + error :=
  inl {| clnAddr := nameOrAddress |}.

(** Temperature 215 (21.5 degrees), humidity 4500 (45 percent). *)
Definition readOk (_ : Client) (c : Characteristic) : list Byte.byte + error :=
  if String.eqb (cUUID c) temperatureUUID then inl [Byte.xd7; Byte.x00]
  else inl [Byte.x94; Byte.x11].

(** The end-to-end scenario: one registered desk sensor, seen and polled. *)
Definition worldDesk : World :=
  exampleWorld [deskSection "temperature/room"] [deskAdv] connectOk readOk.
Definition knownDesk : gmap string sensorInfo :=
  {[ deskAddr := {| sensorName := "desk"; mqttTopic := "temperature/room" |} ]}.

(** Two registered sensors, both seen; the connection to the desk sensor
    fails. *)
Definition worldConnectFails : World :=
  exampleWorld [deskSection "temperature/desk"; shelfSection "temperature/shelf"]
    [deskAdv; shelfAdv]
    (fun n => if String.eqb n deskAddr then inr (OtherError "can't dial")
              else connectOk n)
    readOk.

(** One sensor whose humidity read fails. *)
Definition worldHumidityFails : World :=
  exampleWorld [deskSection "temperature/room"] [deskAdv] connectOk
    (fun cln c => if String.eqb (cUUID c) humidityUUID
                  then inr (OtherError "read timed out") else readOk cln c).

(** Two sensors filed under one topic. *)
Definition worldSharedTopic : World :=
  exampleWorld [deskSection "temperature/room"; shelfSection "temperature/room"]
    [deskAdv; shelfAdv] connectOk readOk.

(** One sensor whose humidity read returns a single byte. *)
Definition worldShortRead : World :=
  exampleWorld [deskSection "temperature/room"] [deskAdv] connectOk
    (fun cln c => if String.eqb (cUUID c) humidityUUID
                  then inl [Byte.x2d] else readOk cln c).

(** One sensor none of whose reads succeeds. *)
Definition worldReadsFail : World :=
  exampleWorld [deskSection "temperature/room"] [deskAdv] connectOk
    (fun _ _ => inr (OtherError "read timed out")).

(** The desk sensor again, with a scan that ends on a transport error. *)
Definition worldScanFails : World :=
  {| w_iniLoad := w_iniLoad worldDesk;
     w_flags := w_flags worldDesk;
     w_newDevice := w_newDevice worldDesk;
     w_scan := ([], Some (Wrapped "can't scan" (OtherError "hci: controller down")));
     w_connect := w_connect worldDesk;
     w_discover := w_discover worldDesk;
     w_read := w_read worldDesk;
     w_now := w_now worldDesk;
     w_mqttConnect := w_mqttConnect worldDesk;
     w_rangeFound := w_rangeFound worldDesk;
     w_rangePayloads := w_rangePayloads worldDesk |}.

Definition deskInfo (topic : string) : sensorInfo :=
  {| sensorName := "desk"; mqttTopic := topic |}.
Definition shelfInfo (topic : string) : sensorInfo :=
  {| sensorName := "shelf"; mqttTopic := topic |}.

(** The registry [worldSharedTopic] loads. *)
Definition knownShared : gmap string sensorInfo :=
  <[shelfAddr := shelfInfo "temperature/room"]>
    (<[deskAddr := deskInfo "temperature/room"]> ∅).

(** The messages of a trace's [client.Publish] calls, in order. *)
Definition published (e : event) : option (string * gmap string value) :=
  match e with
  | EvPublish t body => Some (t, body)
  | _ => None
  end.

(** The message [worldHumidityFails] gets published. *)
Definition partialBody : gmap string value :=
  <["sensorname" := VString "desk"]>
    (<["address" := VString deskAddr]>
       (<["timestamp" := VInt64 1700000000]>
          (<["temperature" := VFloat32 (decodeTemperature 215)]> ∅))).

(** Does polling the device return a payload with both measurements? *)
Definition yieldsBoth (w : World) (d : string * sensorInfo) : bool :=
  match getDeviceData w (fst d) (snd d) [] with
  | (_, Ret (payload, None)) =>
      match payload !! "temperature", payload !! "humidity" with
      | Some _, Some _ => true
      | _, _ => false
      end
  | _ => false
  end.

(** The polling loop of the end-to-end scenario and what it leaves. *)
Definition devsDesk : list (string * sensorInfo) :=
  w_rangeFound worldDesk (scanAll knownDesk [deskAdv]).
Definition polledDesk : list event * outcome (gmap string (gmap string value)) :=
  pollDevices worldDesk knownDesk devsDesk [].
Definition payloadsDesk : gmap string (gmap string value) :=
  match snd polledDesk with
  | Ret payloads => payloads
  | _ => ∅
  end.
Definition publishedDesk : list event :=
  fst (publishAll worldDesk defaultFlags payloadsDesk (fst polledDesk)).

(** [getDeviceData] on the sensor whose reads all fail. *)
Definition polledReadsFail : list event * outcome (gmap string value * option error) :=
  getDeviceData worldReadsFail deskAddr (deskInfo "temperature/room") [].

(** ** Further readings of the code *)

(** The key under which the scan handler files an advertisement: the
    lower-cased address if the registry has it, else the local name if the
    registry has it. *)
Definition matchKey (knownSensors : gmap string sensorInfo) (a : Advertisement)
  : option string :=
  match knownSensors !! ToLower (Addr a) with
  | Some _ => Some (ToLower (Addr a))
  | None =>
      match knownSensors !! LocalName a with
      | Some _ => Some (LocalName a)
      | None => None
      end
  end.

(** The section filter of [loadKnownSensors]: the sections it does not
    skip. *)
Definition recognised (s : iniSection) : bool :=
  macAddressRegex_MatchString (ToLower (Name s))
  || atcDeviceRegex_MatchString (Name s).

(** The registry entry a recognised section with both keys stands for. *)
Definition entryOf (s : iniSection) : option (string * sensorInfo) :=
  if recognised s then
    match GetKey s "sensorname", GetKey s "topic" with
    | Some n, Some t =>
        Some (ToLower (Name s), {| sensorName := ToLower n; mqttTopic := t |})
    | _, _ => None
    end
  else None.

(** A section [loadKnownSensors] gets past: skipped, or holding both keys. *)
Definition loadable (s : iniSection) : bool :=
  negb (recognised s)
  || match GetKey s "sensorname", GetKey s "topic" with
     | Some _, Some _ => true
     | _, _ => false
     end.

(** The [log.Fatalf] a recognised section without both keys ends in: the
    sensor name is asked for first. *)
Definition missingKey (s : iniSection) : fatalmsg :=
  match GetKey s "sensorname" with
  | None => CantGetSensorName
  | Some _ => CantGetTopic
  end.

(** A computation only appends events that satisfy [P]. *)
Definition emitsOnly {A} (P : event -> Prop) (m : M A) : Prop :=
  forall h, exists mid, fst (m h) = h ++ mid /\ Forall P mid.

(** The services [readCharacteristics] looks into. *)
Definition ofInterest (s : Service) : bool :=
  String.eqb (sUUID s) environmentUUID || String.eqb (sUUID s) batteryServiceUUID.

(** The events [readCharacteristics] may add to the trace on the session
    [cln] with the profile [p]: reads of readable characteristics of the
    services of interest, readings of the clock, and reports of failed
    reads. *)
Definition pollEvent (cln : Client) (p : Profile) (e : event) : Prop :=
  match e with
  | EvReadCharacteristic cln' c =>
      cln' = cln
      /\ Z.land (Property c) CharRead <> 0
      /\ exists s, s ∈ Services p /\ ofInterest s = true /\ c ∈ Characteristics s
  | EvNow => True
  | EvLog (LogReadFailed _) => True
  | _ => False
  end.

(** What a payload entry written by [readCharacteristics] looks like. *)
Definition measurementOk (k : string) (v : value) : Prop :=
  (k = "temperature"
   /\ exists raw, 0 <= raw < 65536 /\ v = VFloat32 (decodeTemperature raw))
  \/ (k = "humidity"
      /\ exists raw, 0 <= raw < 65536 /\ v = VUint16 (decodeHumidity raw))
  \/ (k = "timestamp" /\ exists now, v = VInt64 (Z.quot now 1000)).

(** Every entry is a measurement entry. *)
Definition measurementsOnly (payload : gmap string value) : Prop :=
  forall k v, payload !! k = Some v -> measurementOk k v.


(** The broker events of a trace. *)
Definition brokerEvent (e : event) : option event :=
  match e with
  | EvMqttConnect _ _ _ | EvPublish _ _ | EvMqttDisconnect _ => Some e
  | _ => None
  end.

(** The event is no call to the broker. *)
Definition notBroker (e : event) : Prop := brokerEvent e = None.

(** A computation that does not return has published nothing. *)
Definition failsQuietly {A} (m : M A) : Prop :=
  forall h tr o,
    m h = (tr, o) -> (forall a, o <> Ret a) ->
    exists mid, tr = h ++ mid /\ publishedTopics mid = [].

(** The property bits of [ble.Property] that [propString] names
    ([ble.CharRead] is the one [readCharacteristics] tests). *)
Definition CharBroadcast : Z := 1.
Definition CharWriteNR : Z := 4.
Definition CharWrite : Z := 8.
Definition CharNotify : Z := 16.
Definition CharIndicate : Z := 32.
Definition CharSignedWrite : Z := 64.
Definition CharExtended : Z := 128.

(** The map literal of [propString]. *)
Definition propTable : list (Z * string) :=
  [ (CharBroadcast, "B"); (CharRead, "R"); (CharWriteNR, "w"); (CharWrite, "W");
    (CharNotify, "N"); (CharIndicate, "I"); (CharSignedWrite, "S");
    (CharExtended, "E") ].

(** [propString]: the letters of the bits set in [p], appended in the order
    in which [range] visits the map literal, which Go leaves open; [order]
    is that order. *)
Definition propString (order : list (Z * string)) (p : Z) : string :=
  foldl (fun s kv => if negb (Z.eqb (Z.land p (fst kv)) 0) then (s ++ snd kv)%string else s)
        "" order.

(** The letters a table entry contributes. *)
Definition lettersOf (p : Z) (kv : Z * string) : list ascii :=
  if negb (Z.eqb (Z.land p (fst kv)) 0) then list_ascii_of_string (snd kv) else [].


(** ** More example worlds *)

(** A settings file that cannot be opened. *)
Definition worldNoSettings : World :=
  {| w_iniLoad := fun _ => inr (OtherError "open devices.ini: no such file or directory");
     w_flags := w_flags worldDesk;
     w_newDevice := w_newDevice worldDesk;
     w_scan := w_scan worldDesk;
     w_connect := w_connect worldDesk;
     w_discover := w_discover worldDesk;
     w_read := w_read worldDesk;
     w_now := w_now worldDesk;
     w_mqttConnect := w_mqttConnect worldDesk;
     w_rangeFound := w_rangeFound worldDesk;
     w_rangePayloads := w_rangePayloads worldDesk |}.

(** The desk sensor's section, a shelf section without a topic, and the
    section of a third sensor after it. *)
Definition shelfSectionNoTopic : iniSection :=
  {| Name := "A4:C1:38:0C:5B:46"; GetKey := lookupKey [("sensorname", "Shelf")] |}.
Definition windowSection : iniSection :=
  {| Name := "A4:C1:38:0C:5B:47";
     GetKey := lookupKey [("sensorname", "Window"); ("topic", "temperature/window")] |}.
Definition worldNoTopic : World :=
  exampleWorld [deskSection "temperature/room"; shelfSectionNoTopic; windowSection]
    [deskAdv] connectOk readOk.

(** A settings file with no sensor section at all. *)
Definition otherSections : list iniSection :=
  [ {| Name := "DEFAULT"; GetKey := lookupKey [] |};
    {| Name := "kitchen"; GetKey := lookupKey [("topic", "temperature/kitchen")] |} ].
Definition worldNoSensors : World :=
  exampleWorld otherSections [deskAdv] connectOk readOk.


(** The desk sensor again, with a broker that refuses the connection. *)
Definition worldBrokerDown : World :=
  {| w_iniLoad := w_iniLoad worldDesk;
     w_flags := w_flags worldDesk;
     w_newDevice := w_newDevice worldDesk;
     w_scan := w_scan worldDesk;
     w_connect := w_connect worldDesk;
     w_discover := w_discover worldDesk;
     w_read := w_read worldDesk;
     w_now := w_now worldDesk;
     w_mqttConnect := fun _ => Some (OtherError "network Error : connection refused");
     w_rangeFound := w_rangeFound worldDesk;
     w_rangePayloads := w_rangePayloads worldDesk |}.

(** Polling the desk sensor of the end-to-end scenario. *)
Definition deskClient : Client := {| clnAddr := deskAddr |}.
Definition polledDeskOne : list event * outcome (gmap string value * option error) :=
  getDeviceData worldDesk deskAddr (deskInfo "temperature/room") [].
Definition payloadDeskOne : gmap string value :=
  match snd polledDeskOne with
  | Ret (payload, _) => payload
  | _ => ∅
  end.
Definition readDesk : list event * outcome (gmap string value) :=
  readCharacteristics worldDesk deskClient sensorProfile [].
Definition measurementsDesk : gmap string value :=
  match snd readDesk with
  | Ret payload => payload
  | _ => ∅
  end.

(** The polling loop over the two sensors that share a topic. *)
Definition devsShared : list (string * sensorInfo) :=
  [(deskAddr, deskInfo "temperature/room"); (shelfAddr, shelfInfo "temperature/room")].
Definition polledShared : list event * outcome (gmap string (gmap string value)) :=
  pollDevices worldSharedTopic knownShared devsShared [].
Definition payloadsShared : gmap string (gmap string value) :=
  match snd polledShared with
  | Ret payloads => payloads
  | _ => ∅
  end.

(** A sensor at 25.0 degrees and 100 percent: the temperature read returns
    the bytes FA 00, the humidity read the bytes 10 27. *)
Definition worldRoundTrip : World :=
  exampleWorld [deskSection "temperature/room"] [deskAdv] connectOk
    (fun _ c => if String.eqb (cUUID c) temperatureUUID then inl [Byte.xfa; Byte.x00]
                else inl [Byte.x10; Byte.x27]).

(** What [readCharacteristics] makes of it. *)
Definition roundTripMeasurements : gmap string value :=
  <["timestamp" := VInt64 1700000000]>
    (<["humidity" := VUint16 100]>
       (<["temperature" := VFloat32 (decodeTemperature 250)]> ∅)).

(** The desk sensor again: the connection is made, the discovery of its
    profile fails. *)
Definition worldDiscoverFails : World :=
  {| w_iniLoad := w_iniLoad worldDesk;
     w_flags := w_flags worldDesk;
     w_newDevice := w_newDevice worldDesk;
     w_scan := w_scan worldDesk;
     w_connect := w_connect worldDesk;
     w_discover := fun _ _ => inr (OtherError "can't discover services");
     w_read := w_read worldDesk;
     w_now := w_now worldDesk;
     w_mqttConnect := w_mqttConnect worldDesk;
     w_rangeFound := w_rangeFound worldDesk;
     w_rangePayloads := w_rangePayloads worldDesk |}.

(** The names [loadKnownSensors] lower-cases in this section, if it is
    recognised, are ASCII: the section's name and its sensor name. *)
Definition asciiSection (s : iniSection) : bool :=
  negb (recognised s)
  || (isAscii (Name s)
      && match GetKey s "sensorname" with
         | Some n => isAscii n
         | None => true
         end).

(** * Properties *)

(** ** Decoding *)

Lemma allFrom_spec (p : Z -> bool) (n : nat) (z : Z) :
  allFrom p n z = true -> forall x, z <= x < z + Z.of_nat n -> p x = true.
Proof.
  revert z. induction n as [|n IH]; intros z Hall x Hx.
  - simpl in Hx. lia.
  - simpl in Hall. apply andb_prop in Hall as [Hz Hrest].
    destruct (Z.eq_dec x z) as [->|Hne]; [exact Hz|].
    apply (IH (z + 1) Hrest). lia.
Qed.

Lemma temperatureOk_all : allFrom temperatureOk (Z.to_nat 65536) 0 = true.
Proof. vm_compute. reflexivity. Qed.

Lemma temperatureOk_uint16 (raw : Z) :
  0 <= raw < 65536 -> temperatureOk raw = true.
Proof.
  intros H. apply (allFrom_spec temperatureOk _ 0 temperatureOk_all).
  rewrite Z2Nat.id; lia.
Qed.

Lemma byteZ_range (b : Byte.byte) : 0 <= byteZ b < 256.
Proof.
  unfold byteZ. pose proof (Byte.to_N_bounded b). lia.
Qed.

(** On bytes, [b0 | b1<<8] is [b0 + 256 * b1]: the two operands share no bit. *)
Lemma lor_shift_bytes (x y : Z) :
  0 <= x < 256 -> 0 <= y < 256 ->
  Z.lor (uint16 x) (uint16 (Z.shiftl (uint16 y) 8)) = x + 256 * y.
Proof.
  intros Hx Hy. unfold uint16.
  rewrite (Z.mod_small x), (Z.mod_small y) by lia.
  rewrite Z.shiftl_mul_pow2 by lia.
  rewrite (Z.mod_small (y * 2 ^ 8)) by lia.
  pose proof (Z.add_lor_land x (y * 2 ^ 8)) as Hadd.
  assert (Hland : Z.land x (y * 2 ^ 8) = 0).
  { apply Z.bits_inj'. intros n Hn.
    rewrite Z.land_spec, Z.bits_0.
    destruct (Z.lt_ge_cases n 8) as [Hlt|Hge].
    - rewrite Z.mul_pow2_bits_low by lia. apply andb_false_r.
    - destruct (Z.eq_dec x 0) as [->|Hx0]; [now rewrite Z.bits_0|].
      rewrite (Z.bits_above_log2 x n); [reflexivity|lia|].
      apply Z.log2_lt_pow2; [lia|].
      apply Z.lt_le_trans with (2 ^ 8); [lia|].
      apply Z.pow_le_mono_r; lia. }
  rewrite Hland in Hadd. change (2 ^ 8) with 256 in *. lia.
Qed.

Lemma parseLittleEndianValue_two (b0 b1 : Byte.byte) (rest : list Byte.byte) :
  parseLittleEndianValue (b0 :: b1 :: rest) = Ret (byteZ b0 + 256 * byteZ b1).
Proof.
  unfold parseLittleEndianValue.
  rewrite lor_shift_bytes by apply byteZ_range. reflexivity.
Qed.

Lemma readOne_decodes w cln payload c h b0 b1 rest :
  Z.land (Property c) CharRead <> 0 ->
  w_read w (h ++ [EvReadCharacteristic cln c]) cln c = inl (b0 :: b1 :: rest) ->
  (cUUID c = temperatureUUID ->
   readOne w cln payload c h
   = (h ++ [EvReadCharacteristic cln c],
      Ret (<["temperature" := VFloat32 (decodeTemperature (byteZ b0 + 256 * byteZ b1))]>
             payload)))
  /\ (cUUID c = humidityUUID ->
      readOne w cln payload c h
      = (h ++ [EvReadCharacteristic cln c],
         Ret (<["humidity" := VUint16 (decodeHumidity (byteZ b0 + 256 * byteZ b1))]>
                payload))).
Proof.
  intros Hprop Hread. apply Z.eqb_neq in Hprop.
  split; intros Huuid; unfold readOne; rewrite Hprop, Huuid;
    unfold bind, call, lift; cbv beta zeta iota delta [negb];
    rewrite Hread.
  - rewrite String.eqb_refl, parseLittleEndianValue_two. reflexivity.
  - change (String.eqb humidityUUID temperatureUUID) with false.
    rewrite String.eqb_refl, parseLittleEndianValue_two. reflexivity.
Qed.

(** C3. The poller decodes each raw characteristic value as a little-endian
    unsigned 16-bit field [raw = b0 + 256 * b1]: a successful read of a
    readable temperature characteristic stores [float32(raw) / 10] under
    "temperature", one of a humidity characteristic stores [raw / 100] under
    "humidity".  The temperature is the binary32 number nearest to
    [raw / 10]: it is finite, within 2^-12 of [raw / 10], and shows [raw / 10]
    when read to one decimal place.  The humidity is [raw / 100] truncated to
    an integer.  The bytes FA 00 (250) decode to the temperature 25.0
    exactly, and the bytes 10 27 (10000) to the humidity 100, and that is what
    [readCharacteristics] returns for a sensor answering with these bytes. *)
Theorem decoding_little_endian_scaled :
  (forall (w : World) (cln : Client) (payload : gmap string value)
          (c : Characteristic) (h : list event)
          (b0 b1 : Byte.byte) (rest : list Byte.byte),
      let raw := byteZ b0 + 256 * byteZ b1 in
      Z.land (Property c) CharRead <> 0 ->
      w_read w (h ++ [EvReadCharacteristic cln c]) cln c = inl (b0 :: b1 :: rest) ->
      (cUUID c = temperatureUUID ->
       readOne w cln payload c h
       = (h ++ [EvReadCharacteristic cln c],
          Ret (<["temperature" := VFloat32 (decodeTemperature raw)]> payload)))
      /\ (cUUID c = humidityUUID ->
          readOne w cln payload c h
          = (h ++ [EvReadCharacteristic cln c],
             Ret (<["humidity" := VUint16 (decodeHumidity raw)]> payload))))
  /\ (forall (b0 b1 : Byte.byte) (rest : list Byte.byte),
      let raw := byteZ b0 + 256 * byteZ b1 in
      parseLittleEndianValue (b0 :: b1 :: rest) = Ret raw
      /\ 0 <= raw < 65536
      /\ (exists q, float32_exact (decodeTemperature raw) = Some q
                    /\ 0 < snd q
                    /\ tenths q = raw
                    /\ 4096 * Z.abs (10 * fst q - raw * snd q) <= 10 * snd q)
      /\ 100 * decodeHumidity raw <= raw < 100 * (decodeHumidity raw + 1))
  /\ parseLittleEndianValue [Byte.xfa; Byte.x00] = Ret 250
  /\ float32_exact (decodeTemperature 250) = Some (25 * 2 ^ 19, 2 ^ 19)
  /\ parseLittleEndianValue [Byte.x10; Byte.x27] = Ret 10000
  /\ decodeHumidity 10000 = 100
  /\ readCharacteristics worldRoundTrip deskClient sensorProfile []
     = ([EvReadCharacteristic deskClient temperatureChar;
         EvReadCharacteristic deskClient humidityChar; EvNow],
        Ret roundTripMeasurements).
Proof.
  split; [intros w cln payload c h b0 b1 rest raw; apply readOne_decodes|].
  split; [|do 4 (split; [reflexivity|]); vm_compute; exact eq_refl].
  intros b0 b1 rest raw.
  pose proof (byteZ_range b0) as H0. pose proof (byteZ_range b1) as H1.
  assert (Hraw : 0 <= raw < 65536) by (unfold raw; lia).
  split; [apply parseLittleEndianValue_two|].
  split; [exact Hraw|]. split.
  - pose proof (temperatureOk_uint16 raw Hraw) as Hok.
    unfold temperatureOk in Hok.
    destruct (float32_exact (decodeTemperature raw)) as [q|]; [|discriminate].
    apply andb_prop in Hok as [Hok Herr]. apply andb_prop in Hok as [Hpos Hten].
    exists q. repeat split; [lia|lia|].
    apply Z.leb_le. exact Herr.
  - unfold decodeHumidity.
    pose proof (Z.mul_div_le raw 100 ltac:(lia)).
    pose proof (Z.mul_succ_div_gt raw 100 ltac:(lia)). lia.
Qed.

(** ** Matching *)

Lemma insert_known_comm (known m : gmap string sensorInfo) k1 k2 i1 i2 :
  known !! k1 = Some i1 -> known !! k2 = Some i2 ->
  <[k2 := i2]> (<[k1 := i1]> m) = <[k1 := i1]> (<[k2 := i2]> m).
Proof.
  intros H1 H2. destruct (decide (k1 = k2)) as [->|Hne].
  - rewrite H1 in H2. injection H2 as ->. reflexivity.
  - apply insert_insert_ne. congruence.
Qed.

(** What the handler does, whatever [foundDevices] holds: nothing, or one
    insertion of a registry entry under its own key. *)
Lemma scanHandler_shape (known : gmap string sensorInfo) (a : Advertisement) :
  (forall m, scanHandler known m a = m) \/
  exists k info, known !! k = Some info
                 /\ (forall m, scanHandler known m a = <[k := info]> m).
Proof.
  unfold scanHandler.
  destruct (known !! ToLower (Addr a)) as [i|] eqn:Ha; [right; eauto|].
  destruct (known !! LocalName a) as [i|] eqn:Hn; [right; eauto|].
  left. reflexivity.
Qed.

Lemma scanHandler_comm (known m : gmap string sensorInfo) (a b : Advertisement) :
  scanHandler known (scanHandler known m a) b
  = scanHandler known (scanHandler known m b) a.
Proof.
  destruct (scanHandler_shape known a) as [Ha|(ka & ia & Hka & Ha)];
    destruct (scanHandler_shape known b) as [Hb|(kb & ib & Hkb & Hb)];
    rewrite ?Ha, ?Hb, ?Ha; try reflexivity.
  apply (insert_known_comm known); assumption.
Qed.

Lemma foldl_scanHandler_perm (known : gmap string sensorInfo)
    (l1 l2 : list Advertisement) :
  Permutation l1 l2 ->
  forall m, foldl (scanHandler known) m l1 = foldl (scanHandler known) m l2.
Proof.
  induction 1 as [|x l1 l2 _ IH|x y l|l1 l2 l3 _ IH1 _ IH2]; intros m; simpl.
  - reflexivity.
  - apply IH.
  - rewrite scanHandler_comm. reflexivity.
  - rewrite IH1. apply IH2.
Qed.

(** C8. For every registry, handing the scan handler the advertisements of
    a sequence in any permuted order ends with the same [foundDevices]: the
    same keys with the same sensor info. *)
Theorem matching_order_independent (knownSensors : gmap string sensorInfo)
    (advs advs' : list Advertisement) :
  Permutation advs advs' ->
  scanAll knownSensors advs = scanAll knownSensors advs'.
Proof.
  intros Hperm. unfold scanAll. apply foldl_scanHandler_perm. exact Hperm.
Qed.

(** ** The registry *)

Lemma lowerByte_not_upper (c : ascii) : isUpper (lowerByte c) = false.
Proof. destruct c as [[] [] [] [] [] [] [] []]; reflexivity. Qed.

Lemma hasUpper_ToLower (s : string) : hasUpper (ToLower s) = false.
Proof.
  induction s as [|c r IH]; simpl; [reflexivity|].
  rewrite lowerByte_not_upper, IH. reflexivity.
Qed.

Lemma atcPrefix_head (s : string) :
  atcPrefix s = true -> exists r, s = String "A" r.
Proof.
  destruct s as [|c r]; [discriminate|].
  destruct c as [[] [] [] [] [] [] [] []]; try discriminate.
  intros _. eexists. reflexivity.
Qed.

Lemma atc_match_hasUpper (s : string) :
  atcDeviceRegex_MatchString s = true -> hasUpper s = true.
Proof.
  unfold atcDeviceRegex_MatchString.
  induction s as [|c r IH].
  - discriminate.
  - change (matchAnywhere atcPrefix (String c r))
      with (atcPrefix (String c r) || matchAnywhere atcPrefix r).
    intros H. apply orb_prop in H as [H|H].
    + apply atcPrefix_head in H as [r' Hr]. injection Hr as -> _. reflexivity.
    + simpl. rewrite (IH H). apply orb_true_r.
Qed.

Lemma forRange_invariant {A S} (P : S -> Prop) (body : S -> A -> M S) :
  (forall s x h h' s', P s -> body s x h = (h', Ret s') -> P s') ->
  forall l s h h' s', P s -> forRange body l s h = (h', Ret s') -> P s'.
Proof.
  intros Hbody. induction l as [|x l IH]; intros s h h' s' Hs Hrun.
  - injection Hrun as _ <-. exact Hs.
  - simpl in Hrun. unfold bind in Hrun.
    destruct (body s x h) as [h1 [s1|f|p]] eqn:Hx; try discriminate.
    eapply IH; [|exact Hrun]. eapply Hbody; eauto.
Qed.

Lemma loadSection_keysLower known section h h' known' :
  keysLower known -> loadSection known section h = (h', Ret known') ->
  keysLower known'.
Proof.
  intros Hk. unfold loadSection.
  destruct (negb _ && negb _).
  - intros [= _ <-]. exact Hk.
  - destruct (GetKey section "sensorname") as [sn|]; [|discriminate].
    destruct (GetKey section "topic") as [tp|]; [|discriminate].
    intros [= _ <-] k Hsome.
    destruct (decide (ToLower (Name section) = k)) as [<-|Hne].
    + apply hasUpper_ToLower.
    + rewrite lookup_insert_ne in Hsome by exact Hne. apply Hk, Hsome.
Qed.

Lemma loadKnownSensors_keysLower w path h h' known :
  loadKnownSensors w path h = (h', Ret known) -> keysLower known.
Proof.
  unfold loadKnownSensors, bind, call.
  destruct (w_iniLoad w path) as [sections|err]; [|discriminate].
  apply forRange_invariant with (P := keysLower).
  - intros s x h0 h1 s'. apply loadSection_keysLower.
  - intros k [v Hv]. rewrite lookup_empty in Hv. discriminate.
Qed.

(** C9. In a registry built by [loadKnownSensors], no key equals a local
    name that matches [ATC_[0-9A-Z]+]: keys are lower-cased at load time and
    such a name holds capitals.  The handler's lookup by local name thus
    fails, and if the handler records the device at all, it records it under
    the lower-cased hardware address. *)
Theorem atc_name_lookup_never_succeeds (w : World) (path : string)
    (h h' : list event) (knownSensors : gmap string sensorInfo)
    (a : Advertisement) :
  loadKnownSensors w path h = (h', Ret knownSensors) ->
  isAtcDevice a = true ->
  knownSensors !! LocalName a = None
  /\ forall foundDevices,
       scanHandler knownSensors foundDevices a = foundDevices
       \/ exists info, knownSensors !! ToLower (Addr a) = Some info
                       /\ scanHandler knownSensors foundDevices a
                          = <[ToLower (Addr a) := info]> foundDevices.
Proof.
  intros Hload Hatc.
  pose proof (loadKnownSensors_keysLower _ _ _ _ _ Hload) as Hkeys.
  assert (Hname : knownSensors !! LocalName a = None).
  { destruct (knownSensors !! LocalName a) as [i|] eqn:Hl; [|reflexivity].
    pose proof (Hkeys (LocalName a) (ex_intro _ i Hl)) as Hlow.
    rewrite (atc_match_hasUpper _ Hatc) in Hlow. discriminate. }
  split; [exact Hname|].
  intros found. unfold scanHandler. rewrite Hname.
  destruct (knownSensors !! ToLower (Addr a)) as [i|]; [right; eauto|left; reflexivity].
Qed.

(** ** Generic facts about the program monad *)

Lemma extends_ret {A} (a : A) : extends (ret a).
Proof. intros h. exists []. simpl. now rewrite app_nil_r. Qed.

Lemma extends_lift {A} (o : outcome A) : extends (lift o).
Proof. intros h. exists []. simpl. now rewrite app_nil_r. Qed.

Lemma extends_emit (e : event) : extends (emit e).
Proof. intros h. exists [e]. reflexivity. Qed.

Lemma extends_call {A} (e : event) (f : list event -> A) : extends (call e f).
Proof. intros h. exists [e]. reflexivity. Qed.

Lemma extends_bind {A B} (m : M A) (k : A -> M B) :
  extends m -> (forall a, extends (k a)) -> extends (bind m k).
Proof.
  intros Hm Hk h. unfold bind.
  destruct (Hm h) as [mid1 H1].
  destruct (m h) as [h1 [a|f|p]]; simpl in H1; subst h1.
  - destruct (Hk a (h ++ mid1)) as [mid2 H2].
    exists (mid1 ++ mid2). now rewrite H2, app_assoc.
  - now exists mid1.
  - now exists mid1.
Qed.

Lemma extends_forRange {A S} (body : S -> A -> M S) (l : list A) :
  (forall s x, extends (body s x)) -> forall s, extends (forRange body l s).
Proof.
  intros Hb. induction l as [|x l IH]; intros s; simpl.
  - apply extends_ret.
  - apply extends_bind; [apply Hb|exact IH].
Qed.

Lemma neverFatal_bind {A B} (m : M A) (k : A -> M B) :
  neverFatal m -> (forall a, neverFatal (k a)) -> neverFatal (bind m k).
Proof.
  intros Hm Hk h f. unfold bind.
  specialize (Hm h). destruct (m h) as [h1 [a|f'|p]]; simpl in *.
  - apply Hk.
  - exfalso. apply (Hm f'). reflexivity.
  - discriminate.
Qed.

Lemma neverFatal_forRange {A S} (body : S -> A -> M S) (l : list A) :
  (forall s x, neverFatal (body s x)) -> forall s, neverFatal (forRange body l s).
Proof.
  intros Hb. induction l as [|x l IH]; intros s; simpl.
  - intros h f. discriminate.
  - apply neverFatal_bind; [apply Hb|exact IH].
Qed.

(** A loop whose body always returns, returns. *)
Lemma forRange_returns {A S} (body : S -> A -> M S) (l : list A) :
  (forall s x h, In x l -> exists h' s', body s x h = (h', Ret s')) ->
  forall s h, exists h' s', forRange body l s h = (h', Ret s').
Proof.
  induction l as [|x l IH]; intros Hb s h; simpl.
  - eexists _, _. reflexivity.
  - unfold bind. destruct (Hb s x h (or_introl eq_refl)) as (h1 & s1 & ->).
    apply IH. intros s' y h' Hy. apply Hb. now right.
Qed.

(** A loop that cannot exit through [log.Fatalf] and whose body panics on
    some element ends in a panic. *)
Lemma forRange_panics {A S} (body : S -> A -> M S) (l : list A) (x : A) :
  In x l ->
  (forall s h, exists p, snd (body s x h) = Panic p) ->
  (forall s y, neverFatal (body s y)) ->
  forall s h, exists p, snd (forRange body l s h) = Panic p.
Proof.
  intros Hin Hx Hnf. induction l as [|y l IH]; [destruct Hin|].
  intros s h. simpl. unfold bind.
  destruct Hin as [->|Hin].
  - destruct (Hx s h) as [p Hp].
    destruct (body s x h) as [h1 [s1|f|p']]; simpl in Hp; try discriminate.
    exists p'. reflexivity.
  - pose proof (Hnf s y h) as Hy.
    destruct (body s y h) as [h1 [s1|f|p']]; simpl in *.
    + apply (IH Hin).
    + exfalso. apply (Hy f). reflexivity.
    + exists p'. reflexivity.
Qed.

(** ** Reading characteristics *)

Lemma extends_readOne w cln payload c : extends (readOne w cln payload c).
Proof.
  unfold readOne. destruct (negb _); [|apply extends_ret].
  apply extends_bind; [apply extends_call|]. intros [b|err].
  - destruct (String.eqb _ _).
    + apply extends_bind; [apply extends_lift|]. intros; apply extends_ret.
    + destruct (String.eqb _ _); [|apply extends_ret].
      apply extends_bind; [apply extends_lift|]. intros; apply extends_ret.
  - apply extends_bind; [apply extends_emit|]. intros; apply extends_ret.
Qed.

Lemma extends_readService w cln payload s : extends (readService w cln payload s).
Proof.
  unfold readService. destruct (negb _ && negb _); [apply extends_ret|].
  apply extends_bind; [apply extends_forRange; intros; apply extends_readOne|].
  intros. apply extends_bind; [apply extends_call|]. intros; apply extends_ret.
Qed.

Lemma extends_readCharacteristics w cln p : extends (readCharacteristics w cln p).
Proof. apply extends_forRange. intros. apply extends_readService. Qed.

Lemma neverFatal_parse {A} (b : list Byte.byte) (k : Z -> M A) :
  (forall z, neverFatal (k z)) -> neverFatal (bind (lift (parseLittleEndianValue b)) k).
Proof.
  intros Hk h f. unfold bind, lift.
  destruct (parseLittleEndianValue b) as [z|f'|p] eqn:Hp; simpl.
  - apply Hk.
  - destruct b as [|? [|? ?]]; discriminate.
  - discriminate.
Qed.

Lemma neverFatal_readOne w cln payload c : neverFatal (readOne w cln payload c).
Proof.
  unfold readOne. destruct (negb _); [|intros h f; discriminate].
  apply neverFatal_bind; [intros h f; discriminate|]. intros [b|err].
  - destruct (String.eqb _ _).
    + apply neverFatal_parse. intros z h f. discriminate.
    + destruct (String.eqb _ _); [|intros h f; discriminate].
      apply neverFatal_parse. intros z h f. discriminate.
  - apply neverFatal_bind; intros; intros h f; discriminate.
Qed.

Lemma neverFatal_readService w cln payload s : neverFatal (readService w cln payload s).
Proof.
  unfold readService. destruct (negb _ && negb _); [intros h f; discriminate|].
  apply neverFatal_bind; [apply neverFatal_forRange; intros; apply neverFatal_readOne|].
  intros. apply neverFatal_bind; intros; intros h f; discriminate.
Qed.

Lemma bind_panics {A B} (m : M A) (k : A -> M B) (h : list event) :
  (exists p, snd (m h) = Panic p) -> exists p, snd (bind m k h) = Panic p.
Proof.
  intros [p Hp]. unfold bind.
  destruct (m h) as [h1 [a|f|p']]; simpl in Hp; try discriminate.
  exists p'. reflexivity.
Qed.

Lemma parseLittleEndianValue_short (b : list Byte.byte) :
  (length b < 2)%nat -> exists p, parseLittleEndianValue b = Panic p.
Proof.
  destruct b as [|b0 [|b1 rest]]; simpl; intros Hlen.
  - eexists. reflexivity.
  - eexists. reflexivity.
  - lia.
Qed.

Lemma parseLittleEndianValue_lor (b0 b1 : Byte.byte) (rest : list Byte.byte) :
  parseLittleEndianValue (b0 :: b1 :: rest)
  = Ret (Z.lor (byteZ b0) (Z.shiftl (byteZ b1) 8)).
Proof.
  pose proof (byteZ_range b0) as H0. pose proof (byteZ_range b1) as H1.
  unfold parseLittleEndianValue, uint16.
  rewrite (Z.mod_small (byteZ b0)), (Z.mod_small (byteZ b1)) by lia.
  rewrite (Z.mod_small (Z.shiftl (byteZ b1) 8)); [reflexivity|].
  rewrite Z.shiftl_mul_pow2 by lia. change (2 ^ 8) with 256. lia.
Qed.

Lemma readOne_short_read_panics w cln c b :
  Z.land (Property c) CharRead <> 0 ->
  cUUID c = temperatureUUID \/ cUUID c = humidityUUID ->
  (forall h, w_read w h cln c = inl b) ->
  (length b < 2)%nat ->
  forall payload h, exists p, snd (readOne w cln payload c h) = Panic p.
Proof.
  intros Hprop Huuid Hread Hlen payload h.
  destruct (parseLittleEndianValue_short b Hlen) as [p Hp].
  unfold readOne.
  apply Z.eqb_neq in Hprop. rewrite Hprop.
  unfold bind, call, lift. cbv beta zeta iota delta [negb]. rewrite Hread, Hp.
  destruct Huuid as [-> | ->]; simpl; exists p; reflexivity.
Qed.

Lemma readService_short_read_panics w cln s c b :
  sUUID s = environmentUUID \/ sUUID s = batteryServiceUUID ->
  In c (Characteristics s) ->
  Z.land (Property c) CharRead <> 0 ->
  cUUID c = temperatureUUID \/ cUUID c = humidityUUID ->
  (forall h, w_read w h cln c = inl b) ->
  (length b < 2)%nat ->
  forall payload h, exists p, snd (readService w cln payload s h) = Panic p.
Proof.
  intros Hs Hin Hprop Huuid Hread Hlen payload h.
  unfold readService.
  assert (Hsel : negb (String.eqb (sUUID s) environmentUUID)
                 && negb (String.eqb (sUUID s) batteryServiceUUID) = false).
  { destruct Hs as [-> | ->]; reflexivity. }
  rewrite Hsel. apply bind_panics.
  apply (forRange_panics _ _ c Hin).
  - intros. eapply readOne_short_read_panics; eauto.
  - intros. apply neverFatal_readOne.
Qed.

Lemma readCharacteristics_short_read_panics w cln p s c b :
  In s (Services p) ->
  sUUID s = environmentUUID \/ sUUID s = batteryServiceUUID ->
  In c (Characteristics s) ->
  Z.land (Property c) CharRead <> 0 ->
  cUUID c = temperatureUUID \/ cUUID c = humidityUUID ->
  (forall h, w_read w h cln c = inl b) ->
  (length b < 2)%nat ->
  forall h, exists pv, snd (readCharacteristics w cln p h) = Panic pv.
Proof.
  intros Hins Hs Hin Hprop Huuid Hread Hlen h.
  unfold readCharacteristics.
  apply (forRange_panics _ _ s Hins).
  - intros. eapply readService_short_read_panics; eauto.
  - intros. apply neverFatal_readService.
Qed.

(** C10. [parseLittleEndianValue] indexes [b[0]] and [b[1]] without a
    check: on two bytes or more it returns [b[0] | b[1]<<8], a value below
    2^16; on fewer it panics.  [readCharacteristics] hands it the bytes of a
    temperature or humidity read as they come, so such a read returning
    fewer than two bytes ends [getDeviceData] in a panic. *)
Theorem parseLittleEndianValue_unchecked_index :
  (forall (b0 b1 : Byte.byte) (rest : list Byte.byte),
      parseLittleEndianValue (b0 :: b1 :: rest)
      = Ret (Z.lor (byteZ b0) (Z.shiftl (byteZ b1) 8))
      /\ 0 <= Z.lor (byteZ b0) (Z.shiftl (byteZ b1) 8) < 65536)
  /\ (forall b : list Byte.byte,
         (length b < 2)%nat -> exists p, parseLittleEndianValue b = Panic p)
  /\ (forall w nameOrAddress info h cln p s c b,
         w_connect w (h ++ [EvConnect nameOrAddress]) nameOrAddress = inl cln ->
         w_discover w (h ++ [EvConnect nameOrAddress] ++ [EvDiscoverProfile cln]) cln
         = inl p ->
         In s (Services p) ->
         sUUID s = environmentUUID \/ sUUID s = batteryServiceUUID ->
         In c (Characteristics s) ->
         Z.land (Property c) CharRead <> 0 ->
         cUUID c = temperatureUUID \/ cUUID c = humidityUUID ->
         (forall h', w_read w h' cln c = inl b) ->
         (length b < 2)%nat ->
         exists pv, snd (getDeviceData w nameOrAddress info h) = Panic pv).
Proof.
  split; [|split].
  - intros b0 b1 rest. split; [apply parseLittleEndianValue_lor|].
    pose proof (parseLittleEndianValue_lor b0 b1 rest) as Hlor.
    rewrite parseLittleEndianValue_two in Hlor. injection Hlor as <-.
    pose proof (byteZ_range b0). pose proof (byteZ_range b1). lia.
  - apply parseLittleEndianValue_short.
  - intros w n info h cln p s c b Hconn Hdisc Hins Hs Hin Hprop Huuid Hread Hlen.
    unfold getDeviceData, bind at 1, call at 1. rewrite Hconn.
    unfold bind at 1, call at 1. rewrite <- app_assoc, Hdisc.
    apply bind_panics.
    eapply readCharacteristics_short_read_panics; eauto.
Qed.

(** ** Polling one device *)

Lemma readOne_returns w cln :
  noShortRead w cln ->
  forall payload c h, exists h' payload', readOne w cln payload c h = (h', Ret payload').
Proof.
  intros Hns payload c h. unfold readOne.
  destruct (negb _); [|eexists _, _; reflexivity].
  unfold bind, call, lift. cbv beta zeta.
  destruct (w_read w (h ++ [EvReadCharacteristic cln c]) cln c) as [b|err] eqn:Hr.
  - pose proof (Hns _ _ _ Hr) as Hlen.
    destruct (String.eqb (cUUID c) temperatureUUID) eqn:Ht.
    + apply String.eqb_eq in Ht.
      specialize (Hlen (or_introl Ht)).
      destruct b as [|b0 [|b1 rest]]; simpl in Hlen; try lia.
      rewrite parseLittleEndianValue_two. eexists _, _. reflexivity.
    + destruct (String.eqb (cUUID c) humidityUUID) eqn:Hh;
        [|eexists _, _; reflexivity].
      apply String.eqb_eq in Hh.
      specialize (Hlen (or_intror Hh)).
      destruct b as [|b0 [|b1 rest]]; simpl in Hlen; try lia.
      rewrite parseLittleEndianValue_two. eexists _, _. reflexivity.
  - eexists _, _. reflexivity.
Qed.

Lemma readService_returns w cln :
  noShortRead w cln ->
  forall payload s h, exists h' payload', readService w cln payload s h = (h', Ret payload').
Proof.
  intros Hns payload s h. unfold readService.
  destruct (negb _ && negb _); [eexists _, _; reflexivity|].
  unfold bind at 1.
  destruct (forRange_returns (readOne w cln) (Characteristics s)
              (fun s0 x h0 _ => readOne_returns w cln Hns s0 x h0) payload h)
    as (h1 & p1 & ->).
  eexists _, _. reflexivity.
Qed.

Lemma readCharacteristics_returns w cln p :
  noShortRead w cln ->
  forall h, exists h' payload, readCharacteristics w cln p h = (h', Ret payload).
Proof.
  intros Hns h. unfold readCharacteristics.
  apply forRange_returns. intros s x h0 _. apply readService_returns, Hns.
Qed.

(** [getDeviceData] once the session is open and the profile discovered. *)
Lemma getDeviceData_session w n info h cln p :
  w_connect w (h ++ [EvConnect n]) n = inl cln ->
  w_discover w (h ++ [EvConnect n] ++ [EvDiscoverProfile cln]) cln = inl p ->
  getDeviceData w n info h =
  match readCharacteristics w cln p (h ++ [EvConnect n] ++ [EvDiscoverProfile cln]) with
  | (h', Ret payload) =>
      (h' ++ [EvCancelConnection cln; EvDone cln],
       Ret (<["sensorname" := VString (sensorName info)]>
              (<["address" := VString (clnAddr cln)]> payload), None))
  | (h', Fatal f) => (h', Fatal f)
  | (h', Panic pv) => (h', Panic pv)
  end.
Proof.
  intros Hconn Hdisc.
  unfold getDeviceData, bind at 1, call at 1. rewrite Hconn.
  unfold bind at 1, call at 1. rewrite <- app_assoc, Hdisc.
  unfold bind at 1.
  destruct (readCharacteristics w cln p _) as [h' [payload|f|pv]]; try reflexivity.
  unfold bind, emit, ret. rewrite <- app_assoc. reflexivity.
Qed.

(** The teardown on the paths that return: whenever [getDeviceData] returns
    to its caller, a session was opened and the last two events are the
    [CancelConnection] on that session and the wait for its disconnection.
    And it does return, this way, once the session is open and the profile
    discovered, whether the reads succeed or fail, as long as no temperature
    or humidity read is short. *)
Lemma session_torn_down_before_return (w : World) (nameOrAddress : string)
    (info : sensorInfo) (h : list event) :
  (forall tr r,
      getDeviceData w nameOrAddress info h = (tr, Ret r) ->
      exists cln mid,
        w_connect w (h ++ [EvConnect nameOrAddress]) nameOrAddress = inl cln
        /\ tr = h ++ [EvConnect nameOrAddress] ++ mid
                  ++ [EvCancelConnection cln; EvDone cln])
  /\ (forall cln p,
         w_connect w (h ++ [EvConnect nameOrAddress]) nameOrAddress = inl cln ->
         w_discover w (h ++ [EvConnect nameOrAddress] ++ [EvDiscoverProfile cln]) cln
         = inl p ->
         noShortRead w cln ->
         exists mid payload,
           getDeviceData w nameOrAddress info h
           = (h ++ [EvConnect nameOrAddress] ++ mid
                ++ [EvCancelConnection cln; EvDone cln],
              Ret (payload, None))).
Proof.
  assert (Hshape : forall cln p h' payload,
             readCharacteristics w cln p
               (h ++ [EvConnect nameOrAddress] ++ [EvDiscoverProfile cln])
             = (h', Ret payload) ->
             exists mid, h' ++ [EvCancelConnection cln; EvDone cln]
                         = h ++ [EvConnect nameOrAddress] ++ mid
                             ++ [EvCancelConnection cln; EvDone cln]).
  { intros cln p h' payload Hrun.
    destruct (extends_readCharacteristics w cln p
                (h ++ [EvConnect nameOrAddress] ++ [EvDiscoverProfile cln]))
      as [mid Hmid].
    rewrite Hrun in Hmid. simpl in Hmid. subst h'.
    exists (EvDiscoverProfile cln :: mid).
    rewrite <- !app_assoc. reflexivity. }
  split.
  - intros tr r Hrun.
    destruct (w_connect w (h ++ [EvConnect nameOrAddress]) nameOrAddress)
      as [cln|err] eqn:Hconn.
    + destruct (w_discover w (h ++ [EvConnect nameOrAddress] ++ [EvDiscoverProfile cln]) cln)
        as [p|err] eqn:Hdisc.
      * rewrite (getDeviceData_session _ _ _ _ _ _ Hconn Hdisc) in Hrun.
        destruct (readCharacteristics w cln p _) as [h' [payload|f|pv]] eqn:Hread;
          try discriminate.
        injection Hrun as <- _.
        destruct (Hshape _ _ _ _ Hread) as [mid Hmid].
        exists cln, mid. split; [reflexivity|exact Hmid].
      * exfalso. revert Hrun.
        unfold getDeviceData, bind at 1, call at 1. rewrite Hconn.
        unfold bind at 1, call at 1. rewrite <- app_assoc, Hdisc. discriminate.
    + exfalso. revert Hrun.
      unfold getDeviceData, bind at 1, call at 1. rewrite Hconn. discriminate.
  - intros cln p Hconn Hdisc Hns.
    rewrite (getDeviceData_session _ _ _ _ _ _ Hconn Hdisc).
    destruct (readCharacteristics_returns w cln p Hns
                (h ++ [EvConnect nameOrAddress] ++ [EvDiscoverProfile cln]))
      as (h' & payload & Hread).
    rewrite Hread. destruct (Hshape _ _ _ _ Hread) as [mid Hmid].
    exists mid. eexists. rewrite Hmid. reflexivity.
Qed.

(** ** The scan's end *)

Lemma chkErr_cases (e : error) (h : list event) :
  (Cause e = DeadlineExceeded -> chkErr (Some e) h = (h ++ [EvLog LogScanDone], Ret tt))
  /\ (Cause e = Canceled -> chkErr (Some e) h = (h ++ [EvLog LogScanCanceled], Ret tt))
  /\ (Cause e <> DeadlineExceeded -> Cause e <> Canceled ->
      chkErr (Some e) h = (h, Fatal (ScanFailed e))).
Proof.
  unfold chkErr. repeat split.
  - intros ->. reflexivity.
  - intros ->. reflexivity.
  - intros Hd Hc. destruct (Cause e); try reflexivity; congruence.
Qed.

(** C6. Once the registry is loaded and the BLE device is up, a scan that
    ends with an error whose cause is the deadline or the cancellation lets
    [main] go on to the polling and publishing part of the cycle, after
    printing "done" or "canceled"; a scan that ends with any other error makes
    [main] stop there in [log.Fatalf], before any device is polled. *)
Theorem scan_termination_cause (w : World) (h h1 : list event)
    (knownSensors : gmap string sensorInfo) (e : error) :
  loadKnownSensors w (deviceSettingsFile defaultFlags) h = (h1, Ret knownSensors) ->
  size knownSensors <> 0%nat ->
  w_newDevice w (device (w_flags w)) = None ->
  snd (w_scan w) = Some e ->
  let flags := w_flags w in
  let h2 := h1 ++ [EvNewDevice (device flags); EvScan (scanDuration flags)] in
  let foundDevices := scanAll knownSensors (fst (w_scan w)) in
  (Cause e = DeadlineExceeded ->
   main w h = pollAndPublish w flags knownSensors foundDevices
                (h2 ++ [EvLog LogScanDone]))
  /\ (Cause e = Canceled ->
      main w h = pollAndPublish w flags knownSensors foundDevices
                   (h2 ++ [EvLog LogScanCanceled]))
  /\ (Cause e <> DeadlineExceeded -> Cause e <> Canceled ->
      main w h = (h2, Fatal (ScanFailed e))).
Proof.
  intros Hload Hsize Hdev Hscan. cbv zeta.
  set (h2 := h1 ++ [EvNewDevice (device (w_flags w)); EvScan (scanDuration (w_flags w))]).
  assert (Hmain : main w h =
                  bind (chkErr (Some e))
                       (fun _ => pollAndPublish w (w_flags w) knownSensors
                                   (scanAll knownSensors (fst (w_scan w)))) h2).
  { unfold main, bind at 1. rewrite Hload.
    assert (Hz : Z.eqb (Z.of_nat (size knownSensors)) 0 = false)
      by (apply Z.eqb_neq; lia).
    rewrite Hz. unfold bind at 1, call at 1. cbv beta zeta. rewrite Hdev.
    unfold bind at 1, emit at 1. rewrite Hscan, <- app_assoc. reflexivity. }
  destruct (chkErr_cases e h2) as (Hd & Hc & Ho).
  rewrite Hmain. unfold bind. repeat split.
  - intros H. rewrite (Hd H). reflexivity.
  - intros H. rewrite (Hc H). reflexivity.
  - intros H1 H2. rewrite (Ho H1 H2). reflexivity.
Qed.

(** ** Publishing *)

(** C7. With an empty collection of payloads the publishing block of
    [main] does nothing: the trace is left as it was, so there is no
    [client.Connect] and no [client.Publish]. *)
Theorem empty_collection_skips_broker (w : World) (flags : Flags) (h : list event) :
  publishAll w flags ∅ h = (h, Ret tt).
Proof. reflexivity. Qed.

Lemma publish_loop (l : list (string * gmap string value)) (h : list event) :
  forRange publishOne l tt h = (h ++ ((fun m => EvPublish (fst m) (snd m)) <$> l), Ret tt).
Proof.
  revert h. induction l as [|m l IH]; intros h; simpl.
  - now rewrite app_nil_r.
  - unfold bind, publishOne at 1, emit. rewrite IH, <- app_assoc. reflexivity.
Qed.

Lemma publishedTopics_app (l1 l2 : list event) :
  publishedTopics (l1 ++ l2) = publishedTopics l1 ++ publishedTopics l2.
Proof. unfold publishedTopics. apply omap_app. Qed.

Lemma publishedTopics_publishes (l : list (string * gmap string value)) :
  publishedTopics ((fun m => EvPublish (fst m) (snd m)) <$> l) = fst <$> l.
Proof.
  induction l as [|m l IH]; [reflexivity|].
  rewrite !fmap_cons, <- IH. reflexivity.
Qed.

(** What the publishing block adds to the trace when it returns. *)
Lemma publishAll_returns w flags payloads h h' :
  publishAll w flags payloads h = (h', Ret tt) ->
  exists tail, h' = h ++ tail
               /\ (payloads = ∅ /\ publishedTopics tail = []
                   \/ publishedTopics tail = fst <$> w_rangePayloads w payloads).
Proof.
  unfold publishAll. destruct (Z.ltb 0 _) eqn:Hsz.
  - unfold bind at 1, call at 1. cbv beta zeta.
    destruct (w_mqttConnect w _) as [err|]; [discriminate|].
    unfold bind. rewrite publish_loop. unfold emit.
    intros [= <-]. eexists. split.
    + rewrite <- !app_assoc. reflexivity.
    + right. rewrite !publishedTopics_app, publishedTopics_publishes.
      simpl. now rewrite app_nil_r.
  - intros [= <-]. exists []. split; [now rewrite app_nil_r|].
    left. split; [|reflexivity].
    apply map_size_empty_iff. apply Z.ltb_ge in Hsz. lia.
Qed.

(** ** One payload per topic *)

(** Every return of [getDeviceData] carries a [nil] error. *)
Lemma getDeviceData_error_nil w n info h tr r :
  getDeviceData w n info h = (tr, Ret r) -> snd r = None.
Proof.
  unfold getDeviceData, bind at 1, call at 1. cbv beta zeta.
  destruct (w_connect w _ n) as [cln|err]; [|discriminate].
  unfold bind at 1, call at 1. cbv beta zeta.
  destruct (w_discover w _ cln) as [p|err]; [|discriminate].
  unfold bind at 1.
  destruct (readCharacteristics w cln p _) as [h' [payload|f|pv]]; try discriminate.
  unfold bind, emit, ret. intros [= _ <-]. reflexivity.
Qed.

Lemma pollOne_returns_insert w known payloads d h h' payloads' :
  pollOne w known payloads d h = (h', Ret payloads') ->
  exists payload, payloads' = <[topicOf known d := payload]> payloads.
Proof.
  unfold pollOne, bind at 1.
  destruct (getDeviceData w (fst d) (snd d) h) as [h1 [r|f|pv]] eqn:Hget;
    try discriminate.
  rewrite (getDeviceData_error_nil _ _ _ _ _ _ Hget).
  intros [= _ <-]. exists (fst r). reflexivity.
Qed.

Lemma pollLoop_dom w known devs :
  forall init h h' payloads,
    forRange (pollOne w known) devs init h = (h', Ret payloads) ->
    dom payloads = dom init ∪ list_to_set (topicOf known <$> devs).
Proof.
  induction devs as [|d devs IH]; intros init h h' payloads Hrun.
  - injection Hrun as _ <-.
    now rewrite fmap_nil, list_to_set_nil, (right_id_L ∅ (∪)).
  - simpl in Hrun. unfold bind in Hrun.
    destruct (pollOne w known init d h) as [h1 [p1|f|pv]] eqn:Hone;
      try discriminate.
    apply pollOne_returns_insert in Hone as [payload ->].
    rewrite (IH _ _ _ _ Hrun), dom_insert_L, fmap_cons, list_to_set_cons.
    rewrite (comm_L (∪) {[topicOf known d]} (dom init)).
    now rewrite <- (assoc_L (∪)).
Qed.

(** What the publishing block sends: when the polling loop and the
    publishing block both return, the block has published exactly one message
    per distinct topic of the polled devices, each once; if the devices'
    topics are pairwise distinct, that is one message per device. *)
Lemma one_message_per_topic (w : World) (flags : Flags)
    (knownSensors : gmap string sensorInfo) (devs : list (string * sensorInfo))
    (h h1 h2 : list event) (payloads : gmap string (gmap string value)) :
  rangeOk w ->
  pollDevices w knownSensors devs h = (h1, Ret payloads) ->
  publishAll w flags payloads h1 = (h2, Ret tt) ->
  exists tail,
    h2 = h1 ++ tail
    /\ NoDup (publishedTopics tail)
    /\ (forall t, t ∈ publishedTopics tail <-> t ∈ topicOf knownSensors <$> devs)
    /\ (NoDup (topicOf knownSensors <$> devs) ->
        length (publishedTopics tail) = length devs).
Proof.
  intros [_ Hrange] Hpoll Hpub.
  apply pollLoop_dom in Hpoll. rewrite dom_empty_L, (left_id_L ∅ (∪)) in Hpoll.
  assert (Hmem : forall t, t ∈ fst <$> map_to_list payloads
                           <-> t ∈ topicOf knownSensors <$> devs).
  { intros t. rewrite <- (elem_of_list_to_set (C := gset string) t (_ <$> devs)).
    rewrite <- Hpoll, elem_of_dom. split.
    - intros Hin. apply list_elem_of_fmap in Hin as [[k v] [-> Hin]].
      apply elem_of_map_to_list in Hin. eauto.
    - intros [v Hv]. apply list_elem_of_fmap. exists (t, v).
      split; [reflexivity|]. now apply elem_of_map_to_list. }
  destruct (publishAll_returns _ _ _ _ _ Hpub) as [tail [-> Hcase]].
  exists tail. split; [reflexivity|].
  assert (Hperm : publishedTopics tail ≡ₚ fst <$> map_to_list payloads).
  { destruct Hcase as [[-> ->] | ->].
    - now rewrite map_to_list_empty.
    - now rewrite (Hrange payloads). }
  pose proof (NoDup_fst_map_to_list payloads) as Hnd.
  rewrite <- Hperm in Hnd.
  split; [exact Hnd|]. split.
  - intros t. rewrite Hperm. apply Hmem.
  - intros Hdevs. rewrite <- (length_fmap (topicOf knownSensors) devs).
    apply Permutation_length, NoDup_Permutation; [exact Hnd|exact Hdevs|].
    intros t. rewrite Hperm. apply Hmem.
Qed.

(** ** Failures while polling *)

(** A failed [ble.Connect] ends [getDeviceData], and the process, in
    [log.Fatalf]. *)
Lemma getDeviceData_connect_failure w n info h err :
  w_connect w (h ++ [EvConnect n]) n = inr err ->
  getDeviceData w n info h = (h ++ [EvConnect n], Fatal (FailedToConnect n err)).
Proof.
  intros Hconn. unfold getDeviceData, bind, call. cbv beta zeta.
  rewrite Hconn. reflexivity.
Qed.

(** So does a failed [DiscoverProfile]. *)
Lemma getDeviceData_discover_failure w n info h cln err :
  w_connect w (h ++ [EvConnect n]) n = inl cln ->
  w_discover w (h ++ [EvConnect n] ++ [EvDiscoverProfile cln]) cln = inr err ->
  getDeviceData w n info h
  = (h ++ [EvConnect n] ++ [EvDiscoverProfile cln], Fatal (CantDiscoverProfile err)).
Proof.
  intros Hconn Hdisc. unfold getDeviceData, bind at 1, call at 1. rewrite Hconn.
  unfold bind, call. cbv beta zeta. rewrite <- app_assoc, Hdisc. reflexivity.
Qed.

(** The polling loop stops with the process at the first device whose
    [getDeviceData] does. *)
Lemma pollLoop_fatal w known d devs payloads h h' f :
  getDeviceData w (fst d) (snd d) h = (h', Fatal f) ->
  forRange (pollOne w known) (d :: devs) payloads h = (h', Fatal f).
Proof.
  intros Hget. simpl. unfold bind at 1, pollOne, bind at 1. rewrite Hget.
  reflexivity.
Qed.

(** C1, at the failing input. Two registered sensors are seen by the scan;
    the connection to the first one polled fails. The run ends there in
    [log.Fatalf]: the second sensor, though matched, is never connected to,
    and nothing is published. *)
Theorem connect_failure_exits_process :
  scanAll (<[shelfAddr := shelfInfo "temperature/shelf"]>
             (<[deskAddr := deskInfo "temperature/desk"]> ∅))
          (fst (w_scan worldConnectFails)) !! shelfAddr
  = Some (shelfInfo "temperature/shelf")
  /\ main worldConnectFails []
     = ([EvIniLoad "devices.ini"; EvNewDevice "default"; EvScan 5000000000;
         EvLog LogScanDone; EvConnect deskAddr],
        Fatal (FailedToConnect deskAddr (OtherError "can't dial"))).
Proof. split; vm_compute; exact eq_refl. Qed.

(** C2, at the failing input. The sensor's temperature read succeeds and its
    humidity read fails; the run still publishes a message for it, with the
    temperature and without the humidity. *)
Theorem partial_payload_is_published :
  snd (main worldHumidityFails []) = Ret tt
  /\ omap published (fst (main worldHumidityFails []))
     = [("temperature/room", partialBody)]
  /\ partialBody !! "temperature" = Some (VFloat32 (decodeTemperature 215))
  /\ partialBody !! "humidity" = None.
Proof. do 3 (split; [vm_compute; exact eq_refl|]). vm_compute. exact eq_refl. Qed.

(** C4, at the failing input. Two sensors are filed under one topic; both
    are matched, both polls return a payload with temperature and humidity,
    and the run publishes a single message: the payload of the sensor polled
    first is overwritten in the topic-keyed collection and lost. *)
Theorem shared_topic_publishes_once :
  loadKnownSensors worldSharedTopic "devices.ini" []
  = ([EvIniLoad "devices.ini"], Ret knownShared)
  /\ w_rangeFound worldSharedTopic (scanAll knownShared (fst (w_scan worldSharedTopic)))
     = [(deskAddr, deskInfo "temperature/room"); (shelfAddr, shelfInfo "temperature/room")]
  /\ yieldsBoth worldSharedTopic (deskAddr, deskInfo "temperature/room") = true
  /\ yieldsBoth worldSharedTopic (shelfAddr, shelfInfo "temperature/room") = true
  /\ snd (main worldSharedTopic []) = Ret tt
  /\ publishedTopics (fst (main worldSharedTopic [])) = ["temperature/room"].
Proof. do 5 (split; [vm_compute; exact eq_refl|]). vm_compute. exact eq_refl. Qed.

(** C5, at the failing input. The connection to the sensor is made, the
    discovery of its profile fails: [getDeviceData] ends, and the process
    with it, in [log.Fatalf] with the session open; no [CancelConnection] is
    issued and no disconnection awaited. A short humidity read ends the
    session the same way, in a panic after the connect. *)
Theorem discovery_failure_leaves_session_open :
  w_connect worldDiscoverFails ([] ++ [EvConnect deskAddr]) deskAddr = inl deskClient
  /\ getDeviceData worldDiscoverFails deskAddr (deskInfo "temperature/room") []
     = ([EvConnect deskAddr; EvDiscoverProfile deskClient],
        Fatal (CantDiscoverProfile (OtherError "can't discover services")))
  /\ main worldDiscoverFails []
     = ([EvIniLoad "devices.ini"; EvNewDevice "default"; EvScan 5000000000;
         EvLog LogScanDone; EvConnect deskAddr; EvDiscoverProfile deskClient],
        Fatal (CantDiscoverProfile (OtherError "can't discover services")))
  /\ getDeviceData worldShortRead deskAddr (deskInfo "temperature/room") []
     = ([EvConnect deskAddr; EvDiscoverProfile deskClient;
         EvReadCharacteristic deskClient temperatureChar;
         EvReadCharacteristic deskClient humidityChar],
        Panic (IndexOutOfRange 1 1)).
Proof. do 3 (split; [vm_compute; exact eq_refl|]). vm_compute. exact eq_refl. Qed.

(** ** The theorems at work on the example worlds *)

(** The end-to-end scenario: one sensor, one topic, one message. *)
Lemma one_message_per_topic_witness :
  rangeOk worldDesk
  /\ exists tail,
       publishedDesk = fst polledDesk ++ tail
       /\ NoDup (publishedTopics tail)
       /\ (forall t, t ∈ publishedTopics tail <-> t ∈ topicOf knownDesk <$> devsDesk)
       /\ (NoDup (topicOf knownDesk <$> devsDesk) ->
           length (publishedTopics tail) = length devsDesk).
Proof.
  assert (Hrange : rangeOk worldDesk) by (split; intros m; reflexivity).
  split; [exact Hrange|].
  apply (one_message_per_topic worldDesk defaultFlags knownDesk devsDesk []
           (fst polledDesk) publishedDesk payloadsDesk Hrange);
    vm_compute; exact eq_refl.
Defined.

(** A sensor none of whose reads succeeds is still disconnected from. *)
Lemma session_torn_down_before_return_witness :
  (exists cln mid,
      w_connect worldReadsFail ([] ++ [EvConnect deskAddr]) deskAddr = inl cln
      /\ fst polledReadsFail
         = [] ++ [EvConnect deskAddr] ++ mid ++ [EvCancelConnection cln; EvDone cln])
  /\ (exists mid payload,
         polledReadsFail
         = ([] ++ [EvConnect deskAddr] ++ mid
               ++ [EvCancelConnection {| clnAddr := deskAddr |};
                   EvDone {| clnAddr := deskAddr |}],
            Ret (payload, None))).
Proof.
  split.
  - apply (proj1 (session_torn_down_before_return worldReadsFail deskAddr
                    (deskInfo "temperature/room") [])
             (fst polledReadsFail)
             (<["sensorname" := VString "desk"]>
                (<["address" := VString deskAddr]>
                   (<["timestamp" := VInt64 1700000000]> ∅)), None)).
    vm_compute. exact eq_refl.
  - apply (proj2 (session_torn_down_before_return worldReadsFail deskAddr
                    (deskInfo "temperature/room") [])
             {| clnAddr := deskAddr |} sensorProfile).
    + reflexivity.
    + reflexivity.
    + intros h c b Hread _. discriminate Hread.
Defined.

(** A scan that runs into its deadline, and one that breaks. *)
Lemma scan_termination_cause_witness :
  main worldDesk []
  = pollAndPublish worldDesk defaultFlags knownDesk (scanAll knownDesk [deskAdv])
      (([EvIniLoad "devices.ini"] ++ [EvNewDevice "default"; EvScan 5000000000])
         ++ [EvLog LogScanDone])
  /\ main worldScanFails []
     = ([EvIniLoad "devices.ini"] ++ [EvNewDevice "default"; EvScan 5000000000],
        Fatal (ScanFailed (Wrapped "can't scan" (OtherError "hci: controller down")))).
Proof.
  split.
  - apply (proj1 (scan_termination_cause worldDesk [] [EvIniLoad "devices.ini"]
                    knownDesk (Wrapped "scan" DeadlineExceeded)
                    ltac:(vm_compute; exact eq_refl) ltac:(vm_compute; lia)
                    eq_refl eq_refl)).
    reflexivity.
  - apply (proj2 (proj2 (scan_termination_cause worldScanFails []
                           [EvIniLoad "devices.ini"] knownDesk
                           (Wrapped "can't scan" (OtherError "hci: controller down"))
                           ltac:(vm_compute; exact eq_refl) ltac:(vm_compute; lia)
                           eq_refl eq_refl))).
    + discriminate.
    + discriminate.
Defined.

(** Desk then shelf, or shelf then desk. *)
Lemma matching_order_independent_witness :
  scanAll knownShared [deskAdv; shelfAdv] = scanAll knownShared [shelfAdv; deskAdv].
Proof.
  apply (matching_order_independent knownShared [deskAdv; shelfAdv] [shelfAdv; deskAdv]).
  apply perm_swap.
Defined.

(** The desk sensor advertises the name ATC_0C5B45. *)
Lemma atc_name_lookup_never_succeeds_witness :
  isAtcDevice deskAdv = true
  /\ knownDesk !! LocalName deskAdv = None
  /\ forall foundDevices,
       scanHandler knownDesk foundDevices deskAdv = foundDevices
       \/ exists info, knownDesk !! ToLower (Addr deskAdv) = Some info
                       /\ scanHandler knownDesk foundDevices deskAdv
                          = <[ToLower (Addr deskAdv) := info]> foundDevices.
Proof.
  split; [reflexivity|].
  apply (atc_name_lookup_never_succeeds worldDesk "devices.ini" []
           [EvIniLoad "devices.ini"] knownDesk deskAdv).
  - vm_compute. exact eq_refl.
  - reflexivity.
Defined.

(** A humidity read of one byte. *)
Lemma parseLittleEndianValue_unchecked_index_witness :
  (exists p, parseLittleEndianValue [Byte.x2d] = Panic p)
  /\ exists pv,
       snd (getDeviceData worldShortRead deskAddr (deskInfo "temperature/room") [])
       = Panic pv.
Proof.
  split.
  - apply (proj1 (proj2 parseLittleEndianValue_unchecked_index) [Byte.x2d]).
    simpl. lia.
  - apply (proj2 (proj2 parseLittleEndianValue_unchecked_index)
             worldShortRead deskAddr (deskInfo "temperature/room") []
             {| clnAddr := deskAddr |} sensorProfile
             {| sUUID := environmentUUID;
                Characteristics := [temperatureChar; humidityChar] |}
             humidityChar [Byte.x2d]).
    + reflexivity.
    + reflexivity.
    + simpl. right. left. reflexivity.
    + left. reflexivity.
    + simpl. right. left. reflexivity.
    + vm_compute. discriminate.
    + right. reflexivity.
    + intros h'. reflexivity.
    + simpl. lia.
Defined.

(** The desk sensor's two reads, D7 00 and 94 11. *)
Lemma decoding_little_endian_scaled_witness :
  readOne worldDesk deskClient ∅ temperatureChar []
  = ([] ++ [EvReadCharacteristic deskClient temperatureChar],
     Ret (<["temperature" := VFloat32 (decodeTemperature (byteZ Byte.xd7 + 256 * byteZ Byte.x00))]>
            ∅))
  /\ readOne worldDesk deskClient ∅ humidityChar []
     = ([] ++ [EvReadCharacteristic deskClient humidityChar],
        Ret (<["humidity" := VUint16 (decodeHumidity (byteZ Byte.x94 + 256 * byteZ Byte.x11))]>
               ∅)).
Proof.
  split.
  - apply (proj1 (proj1 decoding_little_endian_scaled worldDesk deskClient ∅
                    temperatureChar [] Byte.xd7 Byte.x00 []
                    ltac:(vm_compute; discriminate) eq_refl)).
    reflexivity.
  - apply (proj2 (proj1 decoding_little_endian_scaled worldDesk deskClient ∅
                    humidityChar [] Byte.x94 Byte.x11 []
                    ltac:(vm_compute; discriminate) eq_refl)).
    reflexivity.
Defined.

(** * Further properties *)

(** ** The scan handler *)

Lemma scanHandler_matchKey (known m : gmap string sensorInfo) (a : Advertisement) :
  scanHandler known m a =
  match matchKey known a with
  | Some k => <[k := default zeroSensorInfo (known !! k)]> m
  | None => m
  end.
Proof.
  unfold scanHandler, matchKey.
  destruct (known !! ToLower (Addr a)) as [i|] eqn:Ha.
  - now rewrite Ha.
  - destruct (known !! LocalName a) as [i|] eqn:Hn; [now rewrite Hn|reflexivity].
Qed.

Lemma matchKey_known (known : gmap string sensorInfo) (a : Advertisement) k :
  matchKey known a = Some k -> is_Some (known !! k).
Proof.
  unfold matchKey.
  destruct (known !! ToLower (Addr a)) as [i|] eqn:Ha.
  - intros [= <-]. eauto.
  - destruct (known !! LocalName a) as [i|] eqn:Hn; [|discriminate].
    intros [= <-]. eauto.
Qed.

Lemma scanLoop_lookup (known : gmap string sensorInfo) (advs : list Advertisement) :
  forall m k info,
    foldl (scanHandler known) m advs !! k = Some info <->
    (known !! k = Some info /\ exists a, a ∈ advs /\ matchKey known a = Some k)
    \/ (m !! k = Some info /\ forall a, a ∈ advs -> matchKey known a <> Some k).
Proof.
  induction advs as [|a advs IH]; intros m k info; simpl.
  - split.
    + intros H. right. split; [exact H|]. intros a Ha. inversion Ha.
    + intros [(_ & a & Ha & _)|[H _]]; [inversion Ha|exact H].
  - rewrite IH, scanHandler_matchKey. clear IH.
    destruct (matchKey known a) as [k'|] eqn:Hk.
    + destruct (matchKey_known _ _ _ Hk) as [i' Hi'].
      rewrite Hi'. simpl. split.
      * intros [(H1 & b & Hb & Hkb)|[H1 H2]].
        -- left. split; [exact H1|]. exists b. split; [now right|exact Hkb].
        -- destruct (decide (k' = k)) as [->|Hne].
           ++ rewrite lookup_insert_eq in H1. injection H1 as <-.
              left. split; [exact Hi'|]. exists a. split; [now left|exact Hk].
           ++ rewrite lookup_insert_ne in H1 by exact Hne.
              right. split; [exact H1|]. intros b Hb.
              apply elem_of_cons in Hb as [->|Hb]; [congruence|now apply H2].
      * intros [(H1 & b & Hb & Hkb)|[H1 H2]].
        -- apply elem_of_cons in Hb as [->|Hb].
           ++ rewrite Hk in Hkb. injection Hkb as ->.
              destruct (decide (Exists (fun c => matchKey known c = Some k) advs))
                as [Hex|Hnex].
              ** left. split; [exact H1|].
                 apply Exists_exists in Hex as (c & Hc & Hkc). eauto.
              ** right. split.
                 --- rewrite lookup_insert_eq. congruence.
                 --- intros c Hc Hkc. apply Hnex, Exists_exists. eauto.
           ++ left. split; [exact H1|]. eauto.
        -- right. split; [|intros b Hb; apply H2; now right].
           rewrite lookup_insert_ne; [exact H1|].
           intros ->. apply (H2 a); [now left|exact Hk].
    + split.
      * intros [(H1 & b & Hb & Hkb)|[H1 H2]].
        -- left. split; [exact H1|]. exists b. split; [now right|exact Hkb].
        -- right. split; [exact H1|]. intros b Hb.
           apply elem_of_cons in Hb as [->|Hb]; [congruence|now apply H2].
      * intros [(H1 & b & Hb & Hkb)|[H1 H2]].
        -- apply elem_of_cons in Hb as [->|Hb]; [congruence|].
           left. split; [exact H1|]. eauto.
        -- right. split; [exact H1|]. intros b Hb. apply H2. now right.
Qed.

(** X1. [foundDevices] after a scan holds exactly the registry entries some
    advertisement was filed under: it is a sub-map of the registry (no device
    outside the registry is ever found, and the sensor info is the
    registry's), and a registry key is in it if and only if it is the
    lower-cased address of an advertisement, or the local name of an
    advertisement whose address the registry does not have. *)
Theorem found_devices_characterised (knownSensors : gmap string sensorInfo)
    (advs : list Advertisement) :
  scanAll knownSensors advs ⊆ knownSensors
  /\ forall k info,
       scanAll knownSensors advs !! k = Some info <->
       knownSensors !! k = Some info
       /\ exists a, a ∈ advs /\ matchKey knownSensors a = Some k.
Proof.
  assert (Hchar : forall k info,
             scanAll knownSensors advs !! k = Some info <->
             knownSensors !! k = Some info
             /\ exists a, a ∈ advs /\ matchKey knownSensors a = Some k).
  { intros k info. unfold scanAll. rewrite scanLoop_lookup. split.
    - intros [H|[H _]]; [exact H|]. rewrite lookup_empty in H. discriminate.
    - intros H. now left. }
  split; [|exact Hchar].
  apply map_subseteq_spec. intros k info H. now apply Hchar in H.
Qed.

(** X2. The scan's result depends only on which advertisements were seen,
    not on their order or on how often each was seen: duplicate
    advertisements overwrite an entry with itself. *)
Theorem found_devices_ignore_duplicates (knownSensors : gmap string sensorInfo)
    (advs advs' : list Advertisement) :
  (forall a, a ∈ advs <-> a ∈ advs') ->
  scanAll knownSensors advs = scanAll knownSensors advs'.
Proof.
  intros Hsame. apply map_eq. intros k. apply option_eq. intros info.
  unfold scanAll. rewrite !scanLoop_lookup. split.
  - intros [(H & a & Ha & Hk)|[H _]].
    + left. split; [exact H|]. exists a. split; [now apply Hsame|exact Hk].
    + rewrite lookup_empty in H. discriminate.
  - intros [(H & a & Ha & Hk)|[H _]].
    + left. split; [exact H|]. exists a. split; [now apply Hsame|exact Hk].
    + rewrite lookup_empty in H. discriminate.
Qed.

Lemma found_devices_ignore_duplicates_witness :
  scanAll knownShared [deskAdv; deskAdv; shelfAdv] = scanAll knownShared [shelfAdv; deskAdv].
Proof.
  apply (found_devices_ignore_duplicates knownShared
           [deskAdv; deskAdv; shelfAdv] [shelfAdv; deskAdv]).
  intros a. rewrite !elem_of_cons, elem_of_nil. tauto.
Defined.

(** ** Loading the registry *)

Lemma ToLower_idempotent (s : string) : ToLower (ToLower s) = ToLower s.
Proof.
  induction s as [|c r IH]; simpl; [reflexivity|].
  rewrite IH. f_equal. unfold lowerByte at 1.
  now rewrite lowerByte_not_upper.
Qed.

Lemma loadSection_loadable known s h :
  loadable s = true ->
  loadSection known s h
  = (h, Ret (match entryOf s with
             | Some e => <[fst e := snd e]> known
             | None => known
             end)).
Proof.
  unfold loadable, entryOf, recognised, loadSection.
  rewrite <- negb_orb.
  destruct (macAddressRegex_MatchString (ToLower (Name s))
            || atcDeviceRegex_MatchString (Name s)); simpl; [|reflexivity].
  destruct (GetKey s "sensorname"); [|discriminate].
  destruct (GetKey s "topic"); [|discriminate]. reflexivity.
Qed.

Lemma loadSection_not_loadable known s h :
  loadable s = false -> loadSection known s h = (h, Fatal (missingKey s)).
Proof.
  unfold loadable, missingKey, recognised, loadSection.
  rewrite <- negb_orb.
  destruct (macAddressRegex_MatchString (ToLower (Name s))
            || atcDeviceRegex_MatchString (Name s)); simpl; [|discriminate].
  destruct (GetKey s "sensorname"); [|reflexivity].
  destruct (GetKey s "topic"); [discriminate|reflexivity].
Qed.

Lemma foldl_insert_list_to_map (l : list (string * sensorInfo)) :
  forall m : gmap string sensorInfo,
    foldl (fun m e => <[fst e := snd e]> m) m l = list_to_map (reverse l) ∪ m.
Proof.
  induction l as [|e l IH]; intros m; simpl.
  - now rewrite (left_id_L ∅ (∪)).
  - rewrite IH, reverse_cons, list_to_map_app. simpl.
    rewrite insert_empty, (insert_union_singleton_l m).
    now rewrite (assoc_L (∪)).
Qed.

Lemma loadLoop_loadable (sections : list iniSection) :
  forallb loadable sections = true ->
  forall known h,
    forRange loadSection sections known h
    = (h, Ret (foldl (fun m e => <[fst e := snd e]> m) known (omap entryOf sections))).
Proof.
  induction sections as [|s sections IH]; intros Hall known h; simpl.
  - reflexivity.
  - simpl in Hall. apply andb_prop in Hall as [Hs Hrest].
    unfold bind. rewrite (loadSection_loadable _ _ _ Hs), (IH Hrest).
    destruct (entryOf s); reflexivity.
Qed.

Lemma loadLoop_stops (pre : list iniSection) (s : iniSection) (post : list iniSection) :
  forallb loadable pre = true -> loadable s = false ->
  forall known h,
    forRange loadSection (pre ++ s :: post) known h = (h, Fatal (missingKey s)).
Proof.
  induction pre as [|x pre IH]; intros Hpre Hs known h; simpl.
  - unfold bind. now rewrite (loadSection_not_loadable _ _ _ Hs).
  - simpl in Hpre. apply andb_prop in Hpre as [Hx Hrest].
    unfold bind. rewrite (loadSection_loadable _ _ _ Hx). apply (IH Hrest Hs).
Qed.

(** Either every section is loadable, or there is a first one that is not. *)
Lemma first_not_loadable (sections : list iniSection) :
  forallb loadable sections = true
  \/ exists pre s post, sections = pre ++ s :: post
                        /\ forallb loadable pre = true /\ loadable s = false.
Proof.
  induction sections as [|x l IH]; [now left|].
  destruct (loadable x) eqn:Hx.
  - destruct IH as [Hall|(pre & s & post & -> & Hpre & Hs)].
    + left. simpl. now rewrite Hx.
    + right. exists (x :: pre), s, post. simpl. now rewrite Hx.
  - right. exists [], x, l. auto.
Qed.

Lemma loadKnownSensors_closed_form w path h sections :
  w_iniLoad w path = inl sections ->
  forallb loadable sections = true ->
  loadKnownSensors w path h
  = (h ++ [EvIniLoad path], Ret (list_to_map (reverse (omap entryOf sections)))).
Proof.
  intros Hload Hall. unfold loadKnownSensors, bind, call. cbv beta zeta.
  rewrite Hload, (loadLoop_loadable _ Hall), foldl_insert_list_to_map.
  now rewrite (right_id_L ∅ (∪)).
Qed.

(** X3. When the settings file loads, every recognised section holds a
    sensor name and a topic, and the names of the recognised sections and
    their sensor names are ASCII, [loadKnownSensors] returns, after the one
    call to [ini.Load], the registry that maps the lower-cased name of each
    recognised section to its lower-cased sensor name and its topic as
    written; of two recognised sections whose names differ only in letter
    case the later one wins. Sections that match neither pattern are skipped
    whatever they hold. *)
Theorem load_returns_registry (w : World) (path : string) (h : list event)
    (sections : list iniSection) :
  w_iniLoad w path = inl sections ->
  forallb loadable sections = true ->
  forallb asciiSection sections = true ->
  loadKnownSensors w path h
  = (h ++ [EvIniLoad path], Ret (list_to_map (reverse (omap entryOf sections)))).
Proof. intros Hload Hall _. now apply loadKnownSensors_closed_form. Qed.

(** X4. [loadKnownSensors] ends the process in [log.Fatalf] at the first
    recognised section that lacks the sensor name or the topic (the sensor
    name is looked for first), whatever the sections after it hold; a file
    that fails to load is fatal as well. *)
Theorem load_fatal_on_incomplete_section (w : World) (path : string) (h : list event) :
  (forall err, w_iniLoad w path = inr err ->
               loadKnownSensors w path h
               = (h ++ [EvIniLoad path], Fatal (CantLoadSettings err)))
  /\ (forall pre s post,
         w_iniLoad w path = inl (pre ++ s :: post) ->
         forallb loadable pre = true ->
         loadable s = false ->
         loadKnownSensors w path h = (h ++ [EvIniLoad path], Fatal (missingKey s))).
Proof.
  split.
  - intros err Hload. unfold loadKnownSensors, bind, call. cbv beta zeta.
    now rewrite Hload.
  - intros pre s post Hload Hpre Hs. unfold loadKnownSensors, bind, call.
    cbv beta zeta. rewrite Hload. apply (loadLoop_stops _ _ _ Hpre Hs).
Qed.

Lemma load_ret_inv w path h h' known :
  loadKnownSensors w path h = (h', Ret known) ->
  exists sections,
    w_iniLoad w path = inl sections
    /\ forallb loadable sections = true
    /\ known = list_to_map (reverse (omap entryOf sections)).
Proof.
  intros Hrun.
  destruct (w_iniLoad w path) as [sections|err] eqn:Hload.
  - exists sections. split; [reflexivity|].
    destruct (first_not_loadable sections)
      as [Hall|(pre & s & post & -> & Hpre & Hs)].
    + rewrite (loadKnownSensors_closed_form w path h sections Hload Hall) in Hrun.
      injection Hrun as _ <-. auto.
    + exfalso. revert Hrun. unfold loadKnownSensors, bind, call. cbv beta zeta.
      rewrite Hload, (loadLoop_stops _ _ _ Hpre Hs). discriminate.
  - exfalso. revert Hrun. unfold loadKnownSensors, bind, call. cbv beta zeta.
    rewrite Hload. discriminate.
Qed.

Lemma entryOf_key s k info : entryOf s = Some (k, info) ->
  recognised s = true /\ k = ToLower (Name s)
  /\ (exists n, GetKey s "sensorname" = Some n /\ sensorName info = ToLower n)
  /\ GetKey s "topic" = Some (mqttTopic info).
Proof.
  unfold entryOf. destruct (recognised s); [|discriminate].
  destruct (GetKey s "sensorname") as [n|]; [|discriminate].
  destruct (GetKey s "topic") as [t|]; [|discriminate].
  intros [= <- <-]. simpl. split; [reflexivity|]. split; [reflexivity|].
  split; [eexists; split; reflexivity|reflexivity].
Qed.

Lemma entryOf_loadable s :
  recognised s = true -> loadable s = true ->
  exists info, entryOf s = Some (ToLower (Name s), info).
Proof.
  unfold loadable, entryOf. intros ->. simpl.
  destruct (GetKey s "sensorname"); [|discriminate].
  destruct (GetKey s "topic"); [|discriminate]. eauto.
Qed.

(** X5. In a registry [loadKnownSensors] returned from a file whose
    recognised sections have ASCII names and sensor names, every entry comes
    from a recognised section of the file: its key is that section's name in
    lower case (and is unchanged by another [ToLower]), its sensor name is the
    section's in lower case, and its topic is the section's, letter for
    letter. And the last recognised section of a given lower-cased name is
    the one the registry holds. *)
Theorem registry_entries_from_sections (w : World) (path : string)
    (h h' : list event) (knownSensors : gmap string sensorInfo)
    (sections : list iniSection) :
  loadKnownSensors w path h = (h', Ret knownSensors) ->
  w_iniLoad w path = inl sections ->
  forallb asciiSection sections = true ->
  (forall k info,
      knownSensors !! k = Some info ->
      ToLower k = k
      /\ exists s, s ∈ sections /\ recognised s = true /\ k = ToLower (Name s)
                   /\ (exists n, GetKey s "sensorname" = Some n
                                 /\ sensorName info = ToLower n)
                   /\ GetKey s "topic" = Some (mqttTopic info))
  /\ (forall pre s post k info,
         sections = pre ++ s :: post ->
         entryOf s = Some (k, info) ->
         (forall s', s' ∈ post -> recognised s' = true -> ToLower (Name s') <> k) ->
         knownSensors !! k = Some info).
Proof.
  intros Hrun Hload _.
  destruct (load_ret_inv _ _ _ _ _ Hrun) as (sections' & Hload' & Hall & ->).
  rewrite Hload in Hload'. injection Hload' as <-.
  split.
  - intros k info Hk.
    apply elem_of_list_to_map_2, elem_of_reverse, list_elem_of_omap in Hk
      as (s & Hs & He).
    destruct (entryOf_key _ _ _ He) as (Hrec & -> & Hn & Ht).
    split; [apply ToLower_idempotent|]. exists s. auto.
  - intros pre s post k info -> He Hpost.
    rewrite omap_app. simpl. rewrite He, reverse_app, reverse_cons.
    rewrite <- app_assoc, list_to_map_app.
    rewrite lookup_union_r.
    + simpl. apply lookup_insert_eq.
    + apply not_elem_of_list_to_map. intros Hin.
      apply list_elem_of_fmap in Hin as ([k' i'] & Hk' & Hin). simpl in Hk'. subst k'.
      apply elem_of_reverse, list_elem_of_omap in Hin as (s' & Hs' & He').
      destruct (entryOf_key _ _ _ He') as (Hrec & Hkey & _).
      apply (Hpost s' Hs' Hrec). now symmetry.
Qed.

(** X6. Addresses are matched without regard to letter case: once
    [loadKnownSensors] has returned a registry, every recognised section of
    the file is found by the scan as soon as some advertisement's address
    equals the section's name up to case, and it is then filed with the
    registry's sensor info. *)
Theorem registered_address_is_found (w : World) (path : string)
    (h h' : list event) (knownSensors : gmap string sensorInfo)
    (sections : list iniSection) (s : iniSection)
    (advs : list Advertisement) (a : Advertisement) :
  loadKnownSensors w path h = (h', Ret knownSensors) ->
  w_iniLoad w path = inl sections ->
  s ∈ sections ->
  recognised s = true ->
  a ∈ advs ->
  ToLower (Addr a) = ToLower (Name s) ->
  exists info,
    knownSensors !! ToLower (Name s) = Some info
    /\ scanAll knownSensors advs !! ToLower (Name s) = Some info.
Proof.
  intros Hrun Hload Hs Hrec Ha Haddr.
  destruct (load_ret_inv _ _ _ _ _ Hrun) as (sections' & Hload' & Hall & ->).
  rewrite Hload in Hload'. injection Hload' as <-.
  assert (Hls : loadable s = true).
  { rewrite forallb_forall in Hall. apply Hall. now apply list_elem_of_In. }
  destruct (entryOf_loadable s Hrec Hls) as [i He].
  destruct (list_to_map (reverse (omap entryOf sections)) !! ToLower (Name s))
    as [info|] eqn:Hk.
  - exists info. split; [reflexivity|].
    unfold scanAll. apply scanLoop_lookup. left. split; [exact Hk|].
    exists a. split; [exact Ha|]. unfold matchKey. now rewrite Haddr, Hk.
  - exfalso. apply not_elem_of_list_to_map in Hk. apply Hk.
    apply list_elem_of_fmap. exists (ToLower (Name s), i). split; [reflexivity|].
    apply elem_of_reverse, list_elem_of_omap. eauto.
Qed.

(** ** What a computation may add to the trace *)

Lemma emitsOnly_ret {A} P (a : A) : emitsOnly P (ret a).
Proof. intros h. exists []. simpl. now rewrite app_nil_r. Qed.

Lemma emitsOnly_lift {A} P (o : outcome A) : emitsOnly P (lift o).
Proof. intros h. exists []. simpl. now rewrite app_nil_r. Qed.

Lemma emitsOnly_fatal {A} P (f : fatalmsg) : emitsOnly P (log_Fatalf (A := A) f).
Proof. intros h. exists []. simpl. now rewrite app_nil_r. Qed.

Lemma emitsOnly_panic {A} P (p : panicval) : emitsOnly P (panic (A := A) p).
Proof. intros h. exists []. simpl. now rewrite app_nil_r. Qed.

Lemma emitsOnly_emit (P : event -> Prop) (e : event) : P e -> emitsOnly P (emit e).
Proof. intros He h. exists [e]. split; [reflexivity|]. now constructor. Qed.

Lemma emitsOnly_call {A} (P : event -> Prop) (e : event) (f : list event -> A) :
  P e -> emitsOnly P (call e f).
Proof. intros He h. exists [e]. split; [reflexivity|]. now constructor. Qed.

Lemma emitsOnly_bind {A B} P (m : M A) (k : A -> M B) :
  emitsOnly P m -> (forall a, emitsOnly P (k a)) -> emitsOnly P (bind m k).
Proof.
  intros Hm Hk h. unfold bind.
  destruct (Hm h) as (mid1 & H1 & HP1).
  destruct (m h) as [h1 [a|f|p]]; simpl in H1; subst h1.
  - destruct (Hk a (h ++ mid1)) as (mid2 & H2 & HP2).
    exists (mid1 ++ mid2). rewrite H2, app_assoc. split; [reflexivity|].
    now apply Forall_app.
  - now exists mid1.
  - now exists mid1.
Qed.

Lemma emitsOnly_forRange {A S} P (body : S -> A -> M S) (l : list A) :
  (forall s x, x ∈ l -> emitsOnly P (body s x)) ->
  forall s, emitsOnly P (forRange body l s).
Proof.
  induction l as [|x l IH]; intros Hb s; simpl.
  - apply emitsOnly_ret.
  - apply emitsOnly_bind; [apply Hb; now left|].
    apply IH. intros s' y Hy. apply Hb. now right.
Qed.

Lemma emitsOnly_weaken {A} (P Q : event -> Prop) (m : M A) :
  (forall e, P e -> Q e) -> emitsOnly P m -> emitsOnly Q m.
Proof.
  intros HPQ Hm h. destruct (Hm h) as (mid & H & HP).
  exists mid. split; [exact H|]. eapply Forall_impl; eauto.
Qed.

(** ** What [readCharacteristics] touches *)

Lemma emitsOnly_readOne w cln p s c payload :
  s ∈ Services p -> ofInterest s = true -> c ∈ Characteristics s ->
  emitsOnly (pollEvent cln p) (readOne w cln payload c).
Proof.
  intros Hs Hint Hc. unfold readOne.
  destruct (Z.eqb (Z.land (Property c) CharRead) 0) eqn:Hprop; simpl;
    [apply emitsOnly_ret|].
  apply Z.eqb_neq in Hprop.
  apply emitsOnly_bind.
  - apply emitsOnly_call. simpl. split; [reflexivity|]. split; [exact Hprop|]. eauto.
  - intros [b|err].
    + destruct (String.eqb _ _).
      * apply emitsOnly_bind; [apply emitsOnly_lift|]. intros; apply emitsOnly_ret.
      * destruct (String.eqb _ _); [|apply emitsOnly_ret].
        apply emitsOnly_bind; [apply emitsOnly_lift|]. intros; apply emitsOnly_ret.
    + apply emitsOnly_bind; [now apply emitsOnly_emit|]. intros; apply emitsOnly_ret.
Qed.

Lemma readService_skip w cln payload s :
  ofInterest s = false -> readService w cln payload s = ret payload.
Proof.
  unfold ofInterest, readService. intros H. apply orb_false_elim in H as [-> ->].
  reflexivity.
Qed.

Lemma readService_run w cln payload s :
  ofInterest s = true ->
  readService w cln payload s =
  (let! payload := forRange (readOne w cln) (Characteristics s) payload in
   let! now := call EvNow (w_now w) in
   ret (<["timestamp" := VInt64 (Z.quot now 1000)]> payload)).
Proof.
  unfold ofInterest, readService. intros H.
  rewrite <- negb_orb, H. reflexivity.
Qed.

Lemma emitsOnly_readService w cln p s payload :
  s ∈ Services p -> emitsOnly (pollEvent cln p) (readService w cln payload s).
Proof.
  intros Hs. destruct (ofInterest s) eqn:Hint.
  - rewrite (readService_run _ _ _ _ Hint).
    apply emitsOnly_bind.
    + apply emitsOnly_forRange. intros. eapply emitsOnly_readOne; eauto.
    + intros. apply emitsOnly_bind; [now apply emitsOnly_call|].
      intros; apply emitsOnly_ret.
  - rewrite (readService_skip _ _ _ _ Hint). apply emitsOnly_ret.
Qed.

Lemma emitsOnly_readCharacteristics w cln p :
  emitsOnly (pollEvent cln p) (readCharacteristics w cln p).
Proof.
  apply emitsOnly_forRange. intros. now apply emitsOnly_readService.
Qed.

(** X7. Whatever the device answers, [readCharacteristics] only reads
    characteristics that carry the read property and belong to the
    environmental sensing or the battery service of the discovered profile,
    on the session it was given; besides these reads it only reads the clock
    and reports failed reads. It never reads a characteristic of another
    service or one that is not readable. *)
Theorem reads_only_readable_of_interest (w : World) (cln : Client) (p : Profile)
    (h : list event) :
  exists mid,
    fst (readCharacteristics w cln p h) = h ++ mid
    /\ Forall (pollEvent cln p) mid.
Proof. apply emitsOnly_readCharacteristics. Qed.

(** ** What a payload holds *)

Lemma parseLittleEndianValue_range (b : list Byte.byte) (raw : Z) :
  parseLittleEndianValue b = Ret raw -> 0 <= raw < 65536.
Proof.
  destruct b as [|b0 [|b1 rest]]; try discriminate.
  rewrite parseLittleEndianValue_two. intros [= <-].
  pose proof (byteZ_range b0). pose proof (byteZ_range b1). lia.
Qed.

Lemma measurementsOnly_insert payload k v :
  measurementsOnly payload -> measurementOk k v ->
  measurementsOnly (<[k := v]> payload).
Proof.
  intros Hp Hkv k' v' Hl. destruct (decide (k = k')) as [<-|Hne].
  - rewrite lookup_insert_eq in Hl. now injection Hl as <-.
  - rewrite lookup_insert_ne in Hl by exact Hne. now apply Hp.
Qed.

Lemma readOne_measurementsOnly w cln c payload h h' payload' :
  measurementsOnly payload ->
  readOne w cln payload c h = (h', Ret payload') ->
  measurementsOnly payload'.
Proof.
  intros Hp. unfold readOne.
  destruct (negb _); [|intros [= _ <-]; exact Hp].
  unfold bind at 1, call. cbv beta zeta.
  destruct (w_read w _ cln c) as [b|err].
  - destruct (String.eqb _ _).
    + unfold bind, lift.
      destruct (parseLittleEndianValue b) as [raw|f|pv] eqn:Hparse; try discriminate.
      intros [= _ <-]. apply measurementsOnly_insert; [exact Hp|].
      left. split; [reflexivity|]. exists raw.
      split; [now apply (parseLittleEndianValue_range b)|reflexivity].
    + destruct (String.eqb _ _); [|intros [= _ <-]; exact Hp].
      unfold bind, lift.
      destruct (parseLittleEndianValue b) as [raw|f|pv] eqn:Hparse; try discriminate.
      intros [= _ <-]. apply measurementsOnly_insert; [exact Hp|].
      right. left. split; [reflexivity|]. exists raw.
      split; [now apply (parseLittleEndianValue_range b)|reflexivity].
  - unfold bind, fmt_Printf, emit, ret. intros [= _ <-]. exact Hp.
Qed.

Lemma readService_measurementsOnly w cln s payload h h' payload' :
  measurementsOnly payload ->
  readService w cln payload s h = (h', Ret payload') ->
  measurementsOnly payload'.
Proof.
  intros Hp. destruct (ofInterest s) eqn:Hint.
  - rewrite (readService_run _ _ _ _ Hint). unfold bind at 1.
    destruct (forRange (readOne w cln) (Characteristics s) payload h)
      as [h1 [p1|f|pv]] eqn:Hloop; try discriminate.
    unfold bind, call, ret. cbv beta zeta. intros [= _ <-].
    apply measurementsOnly_insert.
    + eapply (forRange_invariant measurementsOnly); [|exact Hp|exact Hloop].
      intros s0 x h0 h0' s0' Hs0. now apply readOne_measurementsOnly.
    + right. right. split; [reflexivity|]. eauto.
  - rewrite (readService_skip _ _ _ _ Hint). intros [= _ <-]. exact Hp.
Qed.

Lemma readCharacteristics_measurementsOnly w cln p h h' payload :
  readCharacteristics w cln p h = (h', Ret payload) -> measurementsOnly payload.
Proof.
  unfold readCharacteristics.
  apply (forRange_invariant measurementsOnly).
  - intros s x h0 h0' s' Hs. now apply readService_measurementsOnly.
  - intros k v Hl. rewrite lookup_empty in Hl. discriminate.
Qed.

(** How [getDeviceData] returns: the session it opened, what
    [readCharacteristics] did on it, and the payload it completed. *)
Lemma getDeviceData_ret_inv w n info h tr r :
  getDeviceData w n info h = (tr, Ret r) ->
  exists cln p h' payload,
    w_connect w (h ++ [EvConnect n]) n = inl cln
    /\ w_discover w (h ++ [EvConnect n] ++ [EvDiscoverProfile cln]) cln = inl p
    /\ readCharacteristics w cln p (h ++ [EvConnect n] ++ [EvDiscoverProfile cln])
       = (h', Ret payload)
    /\ tr = h' ++ [EvCancelConnection cln; EvDone cln]
    /\ r = (<["sensorname" := VString (sensorName info)]>
              (<["address" := VString (clnAddr cln)]> payload), None).
Proof.
  intros Hrun.
  destruct (w_connect w (h ++ [EvConnect n]) n) as [cln|err] eqn:Hconn.
  - destruct (w_discover w (h ++ [EvConnect n] ++ [EvDiscoverProfile cln]) cln)
      as [p|err] eqn:Hdisc.
    + rewrite (getDeviceData_session _ _ _ _ _ _ Hconn Hdisc) in Hrun.
      destruct (readCharacteristics w cln p _) as [h' [payload|f|pv]] eqn:Hread;
        try discriminate.
      injection Hrun as <- <-. exists cln, p, h', payload. auto.
    + rewrite (getDeviceData_discover_failure _ _ _ _ _ _ Hconn Hdisc) in Hrun.
      discriminate.
  - rewrite (getDeviceData_connect_failure _ _ _ _ _ Hconn) in Hrun. discriminate.
Qed.

(** X8. Every payload [getDeviceData] returns holds the address of the
    session's peer and the registry's sensor name, and beyond these two only
    measurement entries: a "temperature" that is the float32 decoding of a
    16-bit value, a "humidity" that is such a value divided by 100, and a
    "timestamp" in whole seconds. In particular it never holds a battery
    level, although the battery service is read. *)
Theorem payload_shape (w : World) (nameOrAddress : string) (info : sensorInfo)
    (h tr : list event) (payload : gmap string value) (err : option error) :
  getDeviceData w nameOrAddress info h = (tr, Ret (payload, err)) ->
  exists cln,
    w_connect w (h ++ [EvConnect nameOrAddress]) nameOrAddress = inl cln
    /\ payload !! "address" = Some (VString (clnAddr cln))
    /\ payload !! "sensorname" = Some (VString (sensorName info))
    /\ forall k v, payload !! k = Some v ->
                   k = "address" \/ k = "sensorname" \/ measurementOk k v.
Proof.
  intros Hrun.
  destruct (getDeviceData_ret_inv _ _ _ _ _ _ Hrun)
    as (cln & p & h' & payload0 & Hconn & _ & Hread & _ & Hr).
  injection Hr as -> _. exists cln. split; [exact Hconn|].
  split; [rewrite lookup_insert_ne by discriminate; apply lookup_insert_eq|].
  split; [apply lookup_insert_eq|].
  intros k v Hl.
  destruct (decide (k = "sensorname")) as [->|H1]; [auto|].
  destruct (decide (k = "address")) as [->|H2]; [auto|].
  right. right. rewrite !lookup_insert_ne in Hl by congruence.
  now apply (readCharacteristics_measurementsOnly _ _ _ _ _ _ Hread).
Qed.

Lemma readOne_timestamp w cln c payload h h' payload' :
  readOne w cln payload c h = (h', Ret payload') ->
  payload' !! "timestamp" = payload !! "timestamp".
Proof.
  unfold readOne.
  destruct (negb _); [|now intros [= _ <-]].
  unfold bind at 1, call. cbv beta zeta.
  destruct (w_read w _ cln c) as [b|err].
  - destruct (String.eqb _ _).
    + unfold bind, lift.
      destruct (parseLittleEndianValue b) as [raw|f|pv]; try discriminate.
      intros [= _ <-]. now rewrite lookup_insert_ne.
    + destruct (String.eqb _ _); [|now intros [= _ <-]].
      unfold bind, lift.
      destruct (parseLittleEndianValue b) as [raw|f|pv]; try discriminate.
      intros [= _ <-]. now rewrite lookup_insert_ne.
  - unfold bind, fmt_Printf, emit, ret. now intros [= _ <-].
Qed.

Lemma serviceLoop_timestamp w cln (l : list Service) :
  forall payload h h' payload',
    forRange (readService w cln) l payload h = (h', Ret payload') ->
    (is_Some (payload' !! "timestamp") <->
     is_Some (payload !! "timestamp") \/ exists s, s ∈ l /\ ofInterest s = true).
Proof.
  induction l as [|s l IH]; intros payload h h' payload' Hrun.
  - injection Hrun as _ <-. split; [auto|].
    intros [H|(s & Hs & _)]; [exact H|inversion Hs].
  - simpl in Hrun. unfold bind in Hrun.
    destruct (readService w cln payload s h) as [h1 [p1|f|pv]] eqn:Hs;
      try discriminate.
    rewrite (IH _ _ _ _ Hrun). clear IH Hrun.
    destruct (ofInterest s) eqn:Hint.
    + rewrite (readService_run _ _ _ _ Hint) in Hs. unfold bind at 1 in Hs.
      destruct (forRange (readOne w cln) (Characteristics s) payload h)
        as [h2 [p2|f|pv]]; try discriminate.
      unfold bind, call, ret in Hs. cbv beta zeta in Hs. injection Hs as _ <-.
      rewrite lookup_insert_eq. split.
      * intros _. right. exists s. split; [now left|exact Hint].
      * intros _. left. eauto.
    + rewrite (readService_skip _ _ _ _ Hint) in Hs. injection Hs as _ <-.
      split.
      * intros [H|(s' & Hs' & Hi)]; [now left|].
        right. exists s'. split; [now right|exact Hi].
      * intros [H|(s' & Hs' & Hi)]; [now left|].
        apply elem_of_cons in Hs' as [->|Hs']; [congruence|].
        right. eauto.
Qed.

(** X9. A payload returned by [readCharacteristics] carries a timestamp
    exactly when the profile has an environmental sensing or battery service:
    the clock is read once at the end of each such service, whether or not
    any of its reads succeeded, and a device without such a service yields a
    payload without a timestamp. *)
Theorem timestamp_iff_service_of_interest (w : World) (cln : Client) (p : Profile)
    (h h' : list event) (payload : gmap string value) :
  readCharacteristics w cln p h = (h', Ret payload) ->
  (is_Some (payload !! "timestamp") <->
   exists s, s ∈ Services p /\ ofInterest s = true).
Proof.
  intros Hrun. unfold readCharacteristics in Hrun.
  rewrite (serviceLoop_timestamp _ _ _ _ _ _ _ Hrun). split.
  - intros [[v Hv]|H]; [|exact H]. rewrite lookup_empty in Hv. discriminate.
  - auto.
Qed.

(** X10. The decoding is unsigned: for every two bytes read, the
    temperature lies in [0, 6554) and is never negative (a raw value meant as
    a negative two's-complement number comes out as a large positive
    temperature), and the humidity lies in [0, 655], values above 100 not
    being cut off. *)
Theorem decoded_values_unsigned (b0 b1 : Byte.byte) (rest : list Byte.byte) :
  exists raw q,
    parseLittleEndianValue (b0 :: b1 :: rest) = Ret raw
    /\ float32_exact (decodeTemperature raw) = Some q
    /\ 0 < snd q
    /\ 0 <= fst q < 6554 * snd q
    /\ 0 <= decodeHumidity raw <= 655.
Proof.
  pose proof (byteZ_range b0) as H0. pose proof (byteZ_range b1) as H1.
  set (raw := byteZ b0 + 256 * byteZ b1).
  assert (Hraw : 0 <= raw < 65536) by (unfold raw; lia).
  pose proof (temperatureOk_uint16 raw Hraw) as Hok.
  unfold temperatureOk in Hok.
  destruct (float32_exact (decodeTemperature raw)) as [[n d]|] eqn:Hq; [|discriminate].
  cbn [fst snd] in Hok.
  apply andb_prop in Hok as [Hok Herr]. apply andb_prop in Hok as [Hpos Hten].
  apply Z.ltb_lt in Hpos. apply Z.leb_le in Herr.
  exists raw, (n, d). split; [apply parseLittleEndianValue_two|].
  split; [exact Hq|]. cbn [fst snd]. split; [exact Hpos|].
  assert (Hrd : 0 <= raw * d <= 65535 * d) by nia.
  split.
  - split; [|lia].
    destruct (Z.eq_dec raw 0) as [Hz|Hnz].
    + rewrite Hz in Hq. vm_compute in Hq. injection Hq as <- _. lia.
    + assert (1 * d <= raw * d) by nia. lia.
  - unfold decodeHumidity. split.
    + apply Z.div_pos; lia.
    + assert (raw / 100 < 656) by (apply Z.div_lt_upper_bound; lia). lia.
Qed.

(** ** The polling loop *)




Lemma pollOne_ret_inv w known payloads d h h' payloads' :
  pollOne w known payloads d h = (h', Ret payloads') ->
  exists payload,
    getDeviceData w (fst d) (snd d) h = (h', Ret (payload, None))
    /\ payloads' = <[topicOf known d := payload]> payloads.
Proof.
  unfold pollOne, bind at 1.
  destruct (getDeviceData w (fst d) (snd d) h) as [h1 [[payload err]|f|pv]] eqn:Hget;
    try discriminate.
  pose proof (getDeviceData_error_nil _ _ _ _ _ _ Hget) as Herr.
  simpl in Herr. subst err. simpl. intros [= <- <-]. eauto.
Qed.



Lemma forRange_app {A S} (body : S -> A -> M S) (l1 l2 : list A) (s : S) (h : list event) :
  forRange body (l1 ++ l2) s h = bind (forRange body l1 s) (forRange body l2) h.
Proof.
  revert s h. induction l1 as [|x l1 IH]; intros s h; simpl.
  - reflexivity.
  - unfold bind in *.
    destruct (body s x h) as [h1 [s1|f|p]]; try reflexivity. apply IH.
Qed.

Lemma pollLoop_keeps w known devs t :
  (forall d, d ∈ devs -> topicOf known d <> t) ->
  forall init h h' payloads,
    forRange (pollOne w known) devs init h = (h', Ret payloads) ->
    payloads !! t = init !! t.
Proof.
  induction devs as [|d devs IH]; intros Hne init h h' payloads Hrun.
  - now injection Hrun as _ <-.
  - simpl in Hrun. unfold bind in Hrun.
    destruct (pollOne w known init d h) as [h1 [p1|f|pv]] eqn:Hone;
      try discriminate.
    destruct (pollOne_ret_inv _ _ _ _ _ _ _ Hone) as (payload & _ & ->).
    assert (Hne' : forall d', d' ∈ devs -> topicOf known d' <> t)
      by (intros d' Hd'; apply Hne; now right).
    rewrite (IH Hne' _ _ _ _ Hrun).
    apply lookup_insert_ne. apply Hne. now left.
Qed.

(** X12. When two polled devices share a topic, the later one wins: after
    the polling loop, the payload filed under a device's topic is the one
    [getDeviceData] returned for the last device of the loop with that topic,
    and carries that device's sensor name; the payloads of the earlier ones
    are lost. *)
Theorem last_polled_device_wins (w : World) (knownSensors : gmap string sensorInfo)
    (pre : list (string * sensorInfo)) (d : string * sensorInfo)
    (post : list (string * sensorInfo)) (h h' : list event)
    (payloads : gmap string (gmap string value)) :
  pollDevices w knownSensors (pre ++ d :: post) h = (h', Ret payloads) ->
  (forall d', d' ∈ post -> topicOf knownSensors d' <> topicOf knownSensors d) ->
  exists h1 h2 payload,
    getDeviceData w (fst d) (snd d) h1 = (h2, Ret (payload, None))
    /\ payloads !! topicOf knownSensors d = Some payload
    /\ payload !! "sensorname" = Some (VString (sensorName (snd d))).
Proof.
  intros Hrun Hpost. unfold pollDevices in Hrun.
  rewrite forRange_app in Hrun. unfold bind in Hrun.
  destruct (forRange (pollOne w knownSensors) pre ∅ h) as [h1 [p1|f|pv]];
    try discriminate.
  simpl in Hrun. unfold bind in Hrun.
  destruct (pollOne w knownSensors p1 d h1) as [h2 [p2|f|pv]] eqn:Hone;
    try discriminate.
  destruct (pollOne_ret_inv _ _ _ _ _ _ _ Hone) as (payload & Hget & ->).
  exists h1, h2, payload. split; [exact Hget|]. split.
  - rewrite (pollLoop_keeps _ _ _ _ Hpost _ _ _ _ Hrun). apply lookup_insert_eq.
  - destruct (getDeviceData_ret_inv _ _ _ _ _ _ Hget)
      as (cln & p & h'' & payload0 & _ & _ & _ & _ & Hr).
    injection Hr as ->. apply lookup_insert_eq.
Qed.

(** ** Publishing, and the whole run *)

Lemma notBroker_unpublished (mid : list event) :
  Forall notBroker mid -> publishedTopics mid = [].
Proof.
  induction 1 as [|e mid He _ IH]; [reflexivity|].
  change (publishedTopics (e :: mid))
    with (match publishedTopic e with
          | Some t => t :: publishedTopics mid
          | None => publishedTopics mid
          end).
  rewrite IH. destruct e; try reflexivity. discriminate He.
Qed.

Lemma emitsOnly_getDeviceData w n info : emitsOnly notBroker (getDeviceData w n info).
Proof.
  unfold getDeviceData.
  apply emitsOnly_bind; [now apply emitsOnly_call|]. intros [cln|err].
  - apply emitsOnly_bind; [now apply emitsOnly_call|]. intros [p|err].
    + apply emitsOnly_bind.
      * apply (emitsOnly_weaken (pollEvent cln p)); [|apply emitsOnly_readCharacteristics].
        intros e He. destruct e as [m| | | | | | | | | | | |]; simpl in He;
          try contradiction; reflexivity.
      * intros. apply emitsOnly_bind; [now apply emitsOnly_emit|]. intros.
        apply emitsOnly_bind; [now apply emitsOnly_emit|]. intros.
        apply emitsOnly_ret.
    + apply emitsOnly_fatal.
  - apply emitsOnly_fatal.
Qed.

Lemma emitsOnly_pollDevices w known devs : emitsOnly notBroker (pollDevices w known devs).
Proof.
  apply emitsOnly_forRange. intros payloads d _. unfold pollOne.
  apply emitsOnly_bind; [apply emitsOnly_getDeviceData|]. intros r.
  destruct (snd r); [|apply emitsOnly_ret].
  apply emitsOnly_bind; [now apply emitsOnly_emit|]. intros. apply emitsOnly_ret.
Qed.

Lemma emitsOnly_loadKnownSensors w path : emitsOnly notBroker (loadKnownSensors w path).
Proof.
  unfold loadKnownSensors.
  apply emitsOnly_bind; [now apply emitsOnly_call|]. intros [sections|err].
  - apply emitsOnly_forRange. intros known s _. unfold loadSection.
    destruct (_ && _); [apply emitsOnly_ret|].
    destruct (GetKey s "sensorname"); [|apply emitsOnly_fatal].
    destruct (GetKey s "topic"); [apply emitsOnly_ret|apply emitsOnly_fatal].
  - apply emitsOnly_fatal.
Qed.

Lemma emitsOnly_chkErr err : emitsOnly notBroker (chkErr err).
Proof.
  unfold chkErr. destruct err as [e|]; [|apply emitsOnly_ret].
  destruct (Cause e); try apply emitsOnly_fatal; now apply emitsOnly_emit.
Qed.

Lemma failsQuietly_emitsOnly {A} (m : M A) : emitsOnly notBroker m -> failsQuietly m.
Proof.
  intros Hm h tr o Hrun _. destruct (Hm h) as (mid & Hmid & HP).
  rewrite Hrun in Hmid. simpl in Hmid. subst tr.
  exists mid. split; [reflexivity|]. now apply notBroker_unpublished.
Qed.

Lemma failsQuietly_bind {A B} (m : M A) (k : A -> M B) :
  emitsOnly notBroker m -> (forall a, failsQuietly (k a)) -> failsQuietly (bind m k).
Proof.
  intros Hm Hk h tr o Hrun Hnot. unfold bind in Hrun.
  destruct (Hm h) as (mid1 & H1 & HP1).
  destruct (m h) as [h1 [a|f|p]]; simpl in H1; subst h1.
  - destruct (Hk a _ _ _ Hrun Hnot) as (mid2 & -> & H2).
    exists (mid1 ++ mid2). split; [now rewrite app_assoc|].
    rewrite publishedTopics_app, H2, (notBroker_unpublished _ HP1). reflexivity.
  - injection Hrun as <- _. exists mid1. split; [reflexivity|].
    now apply notBroker_unpublished.
  - injection Hrun as <- _. exists mid1. split; [reflexivity|].
    now apply notBroker_unpublished.
Qed.

(** The publishing block when the collection is not empty. *)
Lemma publishAll_nonempty w flags payloads h :
  payloads <> ∅ ->
  publishAll w flags payloads h =
  let hc := h ++ [EvMqttConnect (mqttHost flags) (mqttPort flags) (mqttClientId flags)] in
  match w_mqttConnect w hc with
  | Some e => (hc, Panic (PanicError e))
  | None =>
      (hc ++ ((fun m => EvPublish (fst m) (snd m)) <$> w_rangePayloads w payloads)
          ++ [EvMqttDisconnect 1000], Ret tt)
  end.
Proof.
  intros Hne. unfold publishAll.
  assert (Hsz : Z.ltb 0 (Z.of_nat (size payloads)) = true).
  { apply Z.ltb_lt. pose proof (map_size_ne_0_lookup payloads) as Hs.
    destruct (decide (size payloads = 0%nat)) as [Hz|Hnz]; [|lia].
    apply map_size_empty_iff in Hz. contradiction. }
  rewrite Hsz. unfold bind at 1, call. cbv beta zeta.
  destruct (w_mqttConnect w _) as [e|]; [reflexivity|].
  unfold bind. rewrite publish_loop. unfold emit.
  now rewrite <- !app_assoc.
Qed.

(** X13. With payloads to publish, the publishing block makes one
    [client.Connect]; if that fails it panics before publishing anything;
    otherwise it publishes every payload of the collection unchanged under its
    topic, each exactly once and in the order of the map's [range], and ends
    with one [client.Disconnect(1000)]. *)
Theorem publish_batch (w : World) (flags : Flags)
    (payloads : gmap string (gmap string value)) (h : list event) :
  rangeOk w ->
  payloads <> ∅ ->
  let hc := h ++ [EvMqttConnect (mqttHost flags) (mqttPort flags) (mqttClientId flags)] in
  (forall e, w_mqttConnect w hc = Some e ->
             publishAll w flags payloads h = (hc, Panic (PanicError e)))
  /\ (w_mqttConnect w hc = None ->
      exists order,
        order ≡ₚ map_to_list payloads
        /\ publishAll w flags payloads h
           = (hc ++ ((fun m => EvPublish (fst m) (snd m)) <$> order)
                 ++ [EvMqttDisconnect 1000], Ret tt)).
Proof.
  intros [_ Hrange] Hne. cbv zeta.
  rewrite (publishAll_nonempty _ _ _ _ Hne). cbv zeta. split.
  - intros e ->. reflexivity.
  - intros ->. exists (w_rangePayloads w payloads). split; [apply Hrange|reflexivity].
Qed.

Lemma failsQuietly_publish w flags payloads :
  failsQuietly (bind (publishAll w flags payloads) (fun _ => fmt_Printf LogAllFinished)).
Proof.
  intros h tr o Hrun Hnot. unfold bind in Hrun.
  destruct (decide (payloads = ∅)) as [->|Hne].
  - change (publishAll w flags ∅ h) with (h, @Ret unit tt) in Hrun. injection Hrun as _ <-.
    exfalso. now apply (Hnot tt).
  - rewrite (publishAll_nonempty _ _ _ _ Hne) in Hrun. cbv zeta in Hrun.
    destruct (w_mqttConnect w _) as [e|].
    + injection Hrun as <- _. eexists. split; [reflexivity|reflexivity].
    + injection Hrun as _ <-. exfalso. now apply (Hnot tt).
Qed.

(** X14. Publishing is all or nothing: a run of [main] that does not return
    normally (a [log.Fatalf] while loading, scanning or polling, a panic on a
    short read or on the broker connection) has published no message at all,
    not even for the devices it had polled successfully before. *)
Theorem nothing_published_unless_run_completes (w : World) (h tr : list event)
    (o : outcome unit) :
  main w h = (tr, o) ->
  o <> Ret tt ->
  exists mid, tr = h ++ mid /\ publishedTopics mid = [].
Proof.
  intros Hrun Hnot.
  assert (Hq : failsQuietly (main w)).
  { unfold main. apply failsQuietly_bind; [apply emitsOnly_loadKnownSensors|].
    intros known. destruct (Z.eqb _ 0).
    { apply failsQuietly_emitsOnly. now apply emitsOnly_emit. }
    apply failsQuietly_bind; [now apply emitsOnly_call|]. intros [e|].
    { apply failsQuietly_emitsOnly, emitsOnly_fatal. }
    apply failsQuietly_bind; [now apply emitsOnly_emit|]. intros _.
    apply failsQuietly_bind; [apply emitsOnly_chkErr|]. intros _.
    unfold pollAndPublish. destruct (Z.eqb _ 0).
    { apply failsQuietly_emitsOnly. now apply emitsOnly_emit. }
    apply failsQuietly_bind; [apply emitsOnly_pollDevices|]. intros payloads.
    apply failsQuietly_publish. }
  apply (Hq h tr o Hrun). intros []. exact Hnot.
Qed.

Lemma emitsOnly_publishAll w flags payloads :
  emitsOnly (fun _ => True) (publishAll w flags payloads).
Proof.
  unfold publishAll. destruct (Z.ltb _ _); [|apply emitsOnly_ret].
  apply emitsOnly_bind; [now apply emitsOnly_call|]. intros [e|].
  - apply emitsOnly_panic.
  - apply emitsOnly_bind.
    + apply emitsOnly_forRange. intros. now apply emitsOnly_emit.
    + intros. now apply emitsOnly_emit.
Qed.

Lemma emitsOnly_any {A} (P : event -> Prop) (m : M A) :
  emitsOnly P m -> emitsOnly (fun _ => True) m.
Proof. apply emitsOnly_weaken. auto. Qed.

Lemma emitsOnly_pollAndPublish w flags known found :
  emitsOnly (fun _ => True) (pollAndPublish w flags known found).
Proof.
  unfold pollAndPublish. destruct (Z.eqb _ 0); [now apply emitsOnly_emit|].
  apply emitsOnly_bind; [apply (emitsOnly_any _ _ (emitsOnly_pollDevices _ _ _))|].
  intros. apply emitsOnly_bind; [apply emitsOnly_publishAll|].
  intros. now apply emitsOnly_emit.
Qed.

(** X15. [main] always loads the registry from the flag's default path,
    "devices.ini": the first thing a run does is that [ini.Load], whatever the
    command line says, because the flags are parsed only after the registry is
    loaded. *)
Theorem settings_loaded_from_default_path (w : World) (h : list event) :
  exists rest, fst (main w h) = h ++ EvIniLoad "devices.ini" :: rest.
Proof.
  assert (Hk : emitsOnly (fun _ => True)
                 (fun h' =>
                    bind (match w_iniLoad w "devices.ini" with
                          | inr err => log_Fatalf (CantLoadSettings err)
                          | inl sections => forRange loadSection sections ∅
                          end)
                         (fun knownSensors =>
                            if Z.eqb (Z.of_nat (size knownSensors)) 0
                            then fmt_Printf LogNoKnownSensors
                            else
                              let! err := call (EvNewDevice (device (w_flags w)))
                                               (fun _ => w_newDevice w (device (w_flags w))) in
                              match err with
                              | Some e => log_Fatalf (CantNewDevice e)
                              | None =>
                                  emit (EvScan (scanDuration (w_flags w))) ;;;
                                  chkErr (snd (w_scan w)) ;;;
                                  pollAndPublish w (w_flags w) knownSensors
                                    (scanAll knownSensors (fst (w_scan w)))
                              end) h')).
  { apply emitsOnly_bind.
    - destruct (w_iniLoad w "devices.ini") as [sections|err];
        [|apply emitsOnly_fatal].
      apply emitsOnly_forRange. intros known s _. unfold loadSection.
      destruct (_ && _); [apply emitsOnly_ret|].
      destruct (GetKey s "sensorname"); [|apply emitsOnly_fatal].
      destruct (GetKey s "topic"); [apply emitsOnly_ret|apply emitsOnly_fatal].
    - intros known. destruct (Z.eqb _ 0); [now apply emitsOnly_emit|].
      apply emitsOnly_bind; [now apply emitsOnly_call|]. intros [e|].
      + apply emitsOnly_fatal.
      + apply emitsOnly_bind; [now apply emitsOnly_emit|]. intros.
        apply emitsOnly_bind; [apply (emitsOnly_any _ _ (emitsOnly_chkErr _))|].
        intros. apply emitsOnly_pollAndPublish. }
  destruct (Hk (h ++ [EvIniLoad "devices.ini"])) as (mid & Hmid & _).
  exists mid. rewrite <- app_assoc in Hmid. simpl in Hmid. rewrite <- Hmid.
  unfold main, loadKnownSensors, bind, call. simpl.
  destruct (w_iniLoad w "devices.ini"); reflexivity.
Qed.

(** X16. A settings file without a recognised section (no section name
    holding a MAC address or an ATC name) ends the run at once and quietly:
    [main] returns after the [ini.Load], without creating the BLE device,
    scanning, or calling the broker. *)
Theorem no_recognised_section_ends_run (w : World) (h : list event)
    (sections : list iniSection) :
  w_iniLoad w "devices.ini" = inl sections ->
  (forall s, s ∈ sections -> recognised s = false) ->
  main w h = (h ++ [EvIniLoad "devices.ini"; EvLog LogNoKnownSensors], Ret tt).
Proof.
  intros Hload Hnone.
  assert (Hall : forallb loadable sections = true).
  { apply forallb_forall. intros s Hs. apply list_elem_of_In in Hs.
    unfold loadable. now rewrite (Hnone s Hs). }
  assert (Hnil : omap entryOf sections = []).
  { clear Hload Hall. induction sections as [|s l IH]; [reflexivity|].
    simpl. unfold entryOf at 1. rewrite (Hnone s) by now left.
    apply IH. intros s' Hs'. apply Hnone. now right. }
  unfold main, bind at 1.
  change (deviceSettingsFile defaultFlags) with "devices.ini".
  rewrite (loadKnownSensors_closed_form _ _ _ _ Hload Hall), Hnil.
  change (reverse []) with (@nil (string * sensorInfo)).
  change (list_to_map []) with (∅ : gmap string sensorInfo).
  rewrite map_size_empty. change (Z.eqb (Z.of_nat 0) 0) with true. cbv iota.
  unfold fmt_Printf, emit. now rewrite <- app_assoc.
Qed.



(** ** Naming the property bits *)

Lemma list_ascii_of_string_app (s1 s2 : string) :
  list_ascii_of_string (s1 ++ s2)%string
  = list_ascii_of_string s1 ++ list_ascii_of_string s2.
Proof. induction s1 as [|c s1 IH]; simpl; [reflexivity|now rewrite IH]. Qed.

Lemma propString_letters (order : list (Z * string)) (p : Z) :
  forall s,
    list_ascii_of_string
      (foldl (fun s kv => if negb (Z.eqb (Z.land p (fst kv)) 0)
                          then (s ++ snd kv)%string else s) s order)
    = list_ascii_of_string s ++ flat_map (lettersOf p) order.
Proof.
  induction order as [|kv order IH]; intros s; simpl.
  - now rewrite app_nil_r.
  - rewrite IH. unfold lettersOf at 2.
    destruct (negb _); [|reflexivity].
    now rewrite list_ascii_of_string_app, <- app_assoc.
Qed.

(** X18. [propString] names exactly the property bits that are set: in
    whatever order [range] visits its table, the result holds the letter of an
    entry if and only if the entry's bit is set in [p], and it is the result
    for the table's written order up to a rearrangement of its letters. *)
Theorem propString_names_set_bits (order : list (Z * string)) (p : Z) :
  order ≡ₚ propTable ->
  list_ascii_of_string (propString order p)
    ≡ₚ list_ascii_of_string (propString propTable p)
  /\ forall c, In c (list_ascii_of_string (propString order p)) <->
               exists k, In (k, String c EmptyString) propTable /\ Z.land p k <> 0.
Proof.
  intros Hperm. unfold propString. rewrite !propString_letters. simpl app.
  assert (Hp : flat_map (lettersOf p) order ≡ₚ flat_map (lettersOf p) propTable)
    by (now apply Permutation_flat_map).
  split; [exact Hp|].
  intros c. rewrite <- !list_elem_of_In, Hp, !list_elem_of_In, in_flat_map. split.
  - intros ([k v] & Hkv & Hc). unfold lettersOf in Hc. simpl in Hc.
    destruct (Z.eqb (Z.land p k) 0) eqn:Hbit; simpl in Hc; [contradiction|].
    apply Z.eqb_neq in Hbit. exists k. split; [|exact Hbit].
    simpl in Hkv.
    repeat (destruct Hkv as [Hkv|Hkv];
            [injection Hkv as <- <-; destruct Hc as [<-|[]]; simpl; tauto|]).
    contradiction.
  - intros (k & Hkv & Hbit). exists (k, String c EmptyString).
    split; [exact Hkv|]. unfold lettersOf. simpl.
    apply Z.eqb_neq in Hbit. rewrite Hbit. simpl. now left.
Qed.

(** ** Recognising section names *)

Lemma isHex_lowerByte (c : ascii) : isHex (lowerByte c) = isHex c.
Proof. destruct c as [[] [] [] [] [] [] [] []]; reflexivity. Qed.

Lemma hexPair_ToLower (s : string) :
  hexPair (ToLower s) = option_map ToLower (hexPair s).
Proof.
  destruct s as [|a [|b r]]; try reflexivity.
  simpl. rewrite !isHex_lowerByte. destruct (isHex a && isHex b); reflexivity.
Qed.

Lemma colon_ToLower (s : string) :
  match ToLower s with String ":" r => Some r | _ => None end
  = option_map ToLower (match s with String ":" r => Some r | _ => None end).
Proof.
  destruct s as [|c r]; [reflexivity|].
  destruct c as [[] [] [] [] [] [] [] []]; reflexivity.
Qed.

Lemma hexColonGroups_ToLower (n : nat) :
  forall s, hexColonGroups n (ToLower s) = option_map ToLower (hexColonGroups n s).
Proof.
  induction n as [|n IH]; intros s; [reflexivity|].
  cbn [hexColonGroups]. rewrite hexPair_ToLower.
  destruct (hexPair s) as [r|]; [|reflexivity].
  cbn [option_map].
  destruct r as [|c r']; [reflexivity|].
  destruct c as [[] [] [] [] [] [] [] []]; try reflexivity.
  apply IH.
Qed.

Lemma macPrefix_ToLower (s : string) : macPrefix (ToLower s) = macPrefix s.
Proof.
  unfold macPrefix. rewrite hexColonGroups_ToLower.
  destruct (hexColonGroups 5 s) as [r|]; [|reflexivity].
  cbn [option_map]. rewrite hexPair_ToLower.
  destruct (hexPair r); reflexivity.
Qed.

Lemma macAddressRegex_ToLower (s : string) :
  macAddressRegex_MatchString (ToLower s) = macAddressRegex_MatchString s.
Proof.
  unfold macAddressRegex_MatchString.
  induction s as [|c r IH].
  - reflexivity.
  - change (ToLower (String c r)) with (String (lowerByte c) (ToLower r)).
    change (matchAnywhere macPrefix (String (lowerByte c) (ToLower r)))
      with (macPrefix (ToLower (String c r)) || matchAnywhere macPrefix (ToLower r)).
    change (matchAnywhere macPrefix (String c r))
      with (macPrefix (String c r) || matchAnywhere macPrefix r).
    now rewrite macPrefix_ToLower, IH.
Qed.

(** X19. A MAC address is recognised in either letter case, so the
    lower-casing of the section name before the address pattern is tried
    changes nothing: a section gets past the filter of [loadKnownSensors]
    exactly when its name as written holds a MAC address or an ATC name. (The
    ATC pattern is tried on the name as written and needs its capitals.) *)
Theorem section_filter_ignores_case (s : iniSection) :
  recognised s
  = macAddressRegex_MatchString (Name s) || atcDeviceRegex_MatchString (Name s).
Proof. unfold recognised. now rewrite macAddressRegex_ToLower. Qed.

(** ** The further theorems at work on the example worlds *)

(** Both sensor sections of the shared-topic file are loaded. *)
Lemma load_returns_registry_witness :
  loadKnownSensors worldSharedTopic "devices.ini" []
  = ([] ++ [EvIniLoad "devices.ini"],
     Ret (list_to_map
            (reverse (omap entryOf [deskSection "temperature/room";
                                    shelfSection "temperature/room"])))).
Proof.
  apply (load_returns_registry worldSharedTopic "devices.ini" []
           [deskSection "temperature/room"; shelfSection "temperature/room"]).
  - reflexivity.
  - vm_compute. exact eq_refl.
  - vm_compute. exact eq_refl.
Defined.

(** A file that cannot be opened, and a shelf section without a topic. *)
Lemma load_fatal_on_incomplete_section_witness :
  loadKnownSensors worldNoSettings "devices.ini" []
  = ([] ++ [EvIniLoad "devices.ini"],
     Fatal (CantLoadSettings (OtherError "open devices.ini: no such file or directory")))
  /\ loadKnownSensors worldNoTopic "devices.ini" []
     = ([] ++ [EvIniLoad "devices.ini"], Fatal (missingKey shelfSectionNoTopic)).
Proof.
  split.
  - apply (proj1 (load_fatal_on_incomplete_section worldNoSettings "devices.ini" [])).
    reflexivity.
  - apply (proj2 (load_fatal_on_incomplete_section worldNoTopic "devices.ini" [])
             [deskSection "temperature/room"] shelfSectionNoTopic [windowSection]).
    + reflexivity.
    + vm_compute. exact eq_refl.
    + vm_compute. exact eq_refl.
Defined.

(** The desk entry of the shared-topic registry, and its last section. *)
Lemma registry_entries_from_sections_witness :
  (ToLower deskAddr = deskAddr
   /\ exists s, s ∈ [deskSection "temperature/room"; shelfSection "temperature/room"]
                /\ recognised s = true /\ deskAddr = ToLower (Name s)
                /\ (exists n, GetKey s "sensorname" = Some n
                              /\ sensorName (deskInfo "temperature/room") = ToLower n)
                /\ GetKey s "topic" = Some (mqttTopic (deskInfo "temperature/room")))
  /\ knownShared !! shelfAddr = Some (shelfInfo "temperature/room").
Proof.
  pose proof (registry_entries_from_sections worldSharedTopic "devices.ini" []
                [EvIniLoad "devices.ini"] knownShared
                [deskSection "temperature/room"; shelfSection "temperature/room"]
                ltac:(vm_compute; exact eq_refl) eq_refl
                ltac:(vm_compute; exact eq_refl)) as [Hentry Hlast].
  split.
  - apply (Hentry deskAddr (deskInfo "temperature/room")). vm_compute. exact eq_refl.
  - apply (Hlast [deskSection "temperature/room"] (shelfSection "temperature/room") []).
    + reflexivity.
    + vm_compute. exact eq_refl.
    + intros s' Hs'. inversion Hs'.
Defined.

(** The desk sensor's section is named in capitals, its address is
    advertised in lower case. *)
Lemma registered_address_is_found_witness :
  exists info,
    knownDesk !! ToLower (Name (deskSection "temperature/room")) = Some info
    /\ scanAll knownDesk [deskAdv] !! ToLower (Name (deskSection "temperature/room"))
       = Some info.
Proof.
  apply (registered_address_is_found worldDesk "devices.ini" [] [EvIniLoad "devices.ini"]
           knownDesk [deskSection "temperature/room"] (deskSection "temperature/room")
           [deskAdv] deskAdv).
  - vm_compute. exact eq_refl.
  - reflexivity.
  - now left.
  - vm_compute. exact eq_refl.
  - now left.
  - reflexivity.
Defined.

(** The payload of the desk sensor. *)
Lemma payload_shape_witness :
  exists cln,
    w_connect worldDesk ([] ++ [EvConnect deskAddr]) deskAddr = inl cln
    /\ payloadDeskOne !! "address" = Some (VString (clnAddr cln))
    /\ payloadDeskOne !! "sensorname"
       = Some (VString (sensorName (deskInfo "temperature/room")))
    /\ forall k v, payloadDeskOne !! k = Some v ->
                   k = "address" \/ k = "sensorname" \/ measurementOk k v.
Proof.
  apply (payload_shape worldDesk deskAddr (deskInfo "temperature/room") []
           (fst polledDeskOne) payloadDeskOne None).
  vm_compute. exact eq_refl.
Defined.

(** The sensor profile has an environmental sensing service. *)
Lemma timestamp_iff_service_of_interest_witness :
  is_Some (measurementsDesk !! "timestamp") <->
  exists s, s ∈ Services sensorProfile /\ ofInterest s = true.
Proof.
  apply (timestamp_iff_service_of_interest worldDesk deskClient sensorProfile []
           (fst readDesk) measurementsDesk).
  vm_compute. exact eq_refl.
Defined.


(** The shelf sensor, polled last, owns the shared topic. *)
Lemma last_polled_device_wins_witness :
  exists h1 h2 payload,
    getDeviceData worldSharedTopic shelfAddr (shelfInfo "temperature/room") h1
    = (h2, Ret (payload, None))
    /\ payloadsShared !! "temperature/room" = Some payload
    /\ payload !! "sensorname" = Some (VString "shelf").
Proof.
  apply (last_polled_device_wins worldSharedTopic knownShared
           [(deskAddr, deskInfo "temperature/room")]
           (shelfAddr, shelfInfo "temperature/room") [] []
           (fst polledShared) payloadsShared).
  - vm_compute. exact eq_refl.
  - intros d' Hd'. inversion Hd'.
Defined.

(** A broker that accepts, and one that refuses. *)
Lemma publish_batch_witness :
  (exists order,
      order ≡ₚ map_to_list payloadsDesk
      /\ publishAll worldDesk defaultFlags payloadsDesk []
         = (([] ++ [EvMqttConnect "localhost" 1883 "atc-sensor-relay"])
              ++ ((fun m => EvPublish (fst m) (snd m)) <$> order)
              ++ [EvMqttDisconnect 1000], Ret tt))
  /\ publishAll worldBrokerDown defaultFlags payloadsDesk []
     = ([] ++ [EvMqttConnect "localhost" 1883 "atc-sensor-relay"],
        Panic (PanicError (OtherError "network Error : connection refused"))).
Proof.
  assert (Hne : payloadsDesk <> ∅).
  { intros Hempty. apply (f_equal size) in Hempty. vm_compute in Hempty.
    discriminate Hempty. }
  split.
  - apply (proj2 (publish_batch worldDesk defaultFlags payloadsDesk []
                    ltac:(split; intros m; reflexivity) Hne)).
    reflexivity.
  - apply (proj1 (publish_batch worldBrokerDown defaultFlags payloadsDesk []
                    ltac:(split; intros m; reflexivity) Hne)).
    reflexivity.
Defined.

(** The run that stops at the failed connection. *)
Lemma nothing_published_unless_run_completes_witness :
  exists mid,
    fst (main worldConnectFails []) = [] ++ mid /\ publishedTopics mid = [].
Proof.
  apply (nothing_published_unless_run_completes worldConnectFails []
           (fst (main worldConnectFails []))
           (Fatal (FailedToConnect deskAddr (OtherError "can't dial")))).
  - vm_compute. exact eq_refl.
  - discriminate.
Defined.

(** A file with a DEFAULT and a kitchen section only. *)
Lemma no_recognised_section_ends_run_witness :
  main worldNoSensors []
  = ([] ++ [EvIniLoad "devices.ini"; EvLog LogNoKnownSensors], Ret tt).
Proof.
  apply (no_recognised_section_ends_run worldNoSensors [] otherSections).
  - reflexivity.
  - intros s Hs. unfold otherSections in Hs.
    rewrite !elem_of_cons, elem_of_nil in Hs.
    destruct Hs as [->|[->|[]]]; reflexivity.
Defined.


(** Read and notify (0x12), with the first two table entries visited in
    the other order. *)
Lemma propString_names_set_bits_witness :
  list_ascii_of_string
    (propString ((CharRead, "R") :: (CharBroadcast, "B") :: skipn 2 propTable) 18)
    ≡ₚ list_ascii_of_string (propString propTable 18)
  /\ forall c,
       In c (list_ascii_of_string
               (propString ((CharRead, "R") :: (CharBroadcast, "B") :: skipn 2 propTable) 18))
       <-> exists k, In (k, String c EmptyString) propTable /\ Z.land 18 k <> 0.
Proof.
  apply (propString_names_set_bits
           ((CharRead, "R") :: (CharBroadcast, "B") :: skipn 2 propTable) 18).
  apply perm_swap.
Defined.
